(** * mpldxf: the DXF renderer backend (src/mpldxf/backend_dxf.py)

    A shallow embedding of [RendererDxf] and of [rgb_to_dxf].

    - Python floats and numpy float64 values are binary64 primitive floats.
    - The drawing's modelspace is a list of entities, an entity's handle is
      its index; [add_*] appends, later mutation of a hatch or a text entity
      goes through its handle.
    - A method is a computation in [M]: it threads the renderer and either
      returns or raises, and what was appended before a raise stays.
    - shapely, ezdxf's clipper and the module [dxf_colors] are not part of
      the file under study: they are variables of the section [Renderer]. *)

From Stdlib Require Import Floats ZArith NArith List String Ascii Bool Lia.
From stdpp Require Import base list.
Import ListNotations.

Set Warnings "-inexact-float,-register-all".
Local Open Scope Z_scope.

(** ** Python values *)

(** Exceptions the modelled code can raise. *)
Inductive exn : Type :=
| IndexError
| NotImplementedError
| AttributeError
| ValueError
| OverflowError.

Inductive outcome (A : Type) : Type :=
| Ok (a : A)
| Raise (e : exn).
Arguments Ok {A} a.
Arguments Raise {A} e.

Definition obind {A B} (c : outcome A) (k : A -> outcome B) : outcome B :=
  match c with
  | Ok a => k a
  | Raise e => Raise e
  end.

(** [[f(x) for x in l]] where [f] may raise. *)
Fixpoint omap {A B} (f : A -> outcome B) (l : list A) : outcome (list B) :=
  match l with
  | [] => Ok []
  | x :: t => obind (f x) (fun y => obind (omap f t) (fun ys => Ok (y :: ys)))
  end.

(** A 2D vertex: a row of an N x 2 array, a coordinate tuple or a [Vec2]. *)
Definition point : Type := float * float.

(** [str]: a sequence of Unicode code points. Keywords that the code only
    compares with ASCII literals are [string]s. *)
Definition pystr : Type := list N.

Definition pystr_of (s : string) : pystr :=
  List.map N_of_ascii (list_ascii_of_string s).

(** [sub in s] on strings. *)
Fixpoint str_in (sub s : string) : bool :=
  String.prefix sub s ||
  match s with
  | EmptyString => false
  | String _ t => str_in sub t
  end.

(** [str.upper], on ASCII letters. *)
Definition upper_ascii (c : ascii) : ascii :=
  let n := nat_of_ascii c in
  if (Nat.leb 97 n && Nat.leb n 122)%bool then ascii_of_nat (n - 32) else c.

Fixpoint upper (s : string) : string :=
  match s with
  | EmptyString => EmptyString
  | String c t => String (upper_ascii c) (upper t)
  end.

(** [range(a, b)]. *)
Definition range (a b : Z) : list Z :=
  List.map (fun i => a + Z.of_nat i) (seq 0 (Z.to_nat (b - a))).

(** [math.ceil] of a float: the exact ceiling of the binary64 value;
    [ValueError] on NaN, [OverflowError] on an infinity. *)
Definition math_ceil (x : float) : outcome Z :=
  match Prim2SF x with
  | S754_nan => Raise ValueError
  | S754_infinity _ => Raise OverflowError
  | S754_zero _ => Ok 0
  | S754_finite s m e =>
      let num := if s then Z.neg m else Z.pos m in
      Ok (match e with
          | Z.neg p => - ((- num) / 2 ^ Z.pos p)
          | _ => num * 2 ^ e
          end)
  end.

(** [numpy.isclose(x, y)] with the default [rtol=1e-05], [atol=1e-08] and
    [numpy.allclose] of two arrays of one length. *)
Definition isclose (x y : float) : bool :=
  ((abs (x - y) <=? 1e-08 + 1e-05 * abs y)%float && is_finite y)
  || (x =? y)%float.

Definition allclose (a b : list float) : bool :=
  forallb (fun xy => isclose (fst xy) (snd xy)) (combine a b).

Definition zeros (n : nat) : list float := repeat 0%float n.

(** ** Colours *)

(** An RGB[A] colour: channels in 0.0 - 1.0, the alpha channel optional. *)
Record RGBA : Type := mkRGBA {
  red : float;
  green : float;
  blue : float;
  alpha : option float
}.

(** [rgb_val[:3]] *)
Definition rgb3 (c : RGBA) : list float := [red c; green c; blue c].

(** Modelled from the spec: the palette of the module [dxf_colors], which is
    not among the sources; an excerpt with the entries 0 to 7 of the AutoCAD
    colour index. The renderer below never depends on it: it instantiates the
    section's [nearest_index] where a concrete palette is wanted. *)
Module SamplePalette.

Definition palette : list (Z * (float * float * float)) :=
  [ (0, (0, 0, 0)%float); (1, (255, 0, 0)%float);
    (2, (255, 255, 0)%float); (3, (0, 255, 0)%float);
    (4, (0, 255, 255)%float); (5, (0, 0, 255)%float);
    (6, (255, 0, 255)%float); (7, (255, 255, 255)%float) ].

Definition WHITE : Z := 7.

Definition dist2 (c : list float) (p : float * float * float) : float :=
  match c with
  | [r; g; b] =>
      let '(pr, pg, pb) := p in
      ((r - pr) * (r - pr) + (g - pg) * (g - pg) + (b - pb) * (b - pb))%float
  | _ => infinity
  end.

(** Nearest entry by Euclidean distance, the lowest index wins a tie. *)
Definition nearest_index (c : list float) : Z :=
  fst (fold_left
         (fun best e =>
            if (dist2 c (snd e) <? snd best)%float
            then (fst e, dist2 c (snd e)) else best)
         palette (0, infinity)).

End SamplePalette.

(** ** shapely geometries

    What the renderer reads of a geometry: [is_empty], [geom_type], [geoms]
    (multi-part geometries only) and [coords] (points and curves only). *)

Inductive simple_kind : Type := KPoint | KLineString | KLinearRing | KPolygon.

Inductive multi_kind : Type :=
| KMultiPoint | KMultiLineString | KMultiPolygon | KGeometryCollection.

Inductive geometry : Type :=
| Simple (k : simple_kind) (cs : list point)
| Multi (k : multi_kind) (gs : list geometry).

Definition Point (v : point) : geometry := Simple KPoint [v].
Definition LineString (vs : list point) : geometry := Simple KLineString vs.
Definition Polygon (shell : list point) : geometry := Simple KPolygon shell.

Definition geom_type (g : geometry) : string :=
  match g with
  | Simple KPoint _ => "Point"
  | Simple KLineString _ => "LineString"
  | Simple KLinearRing _ => "LinearRing"
  | Simple KPolygon _ => "Polygon"
  | Multi KMultiPoint _ => "MultiPoint"
  | Multi KMultiLineString _ => "MultiLineString"
  | Multi KMultiPolygon _ => "MultiPolygon"
  | Multi KGeometryCollection _ => "GeometryCollection"
  end.

Fixpoint is_empty (g : geometry) : bool :=
  match g with
  | Simple _ [] => true
  | Simple _ (_ :: _) => false
  | Multi _ gs => forallb is_empty gs
  end.

Definition coords (g : geometry) : outcome (list point) :=
  match g with
  | Simple KPolygon _ => Raise NotImplementedError
  | Simple _ cs => Ok cs
  | Multi _ _ => Raise NotImplementedError
  end.

Definition geoms (g : geometry) : outcome (list geometry) :=
  match g with
  | Simple _ _ => Raise AttributeError
  | Multi _ gs => Ok gs
  end.

(** A non-empty point or curve: one disjoint piece of a clipped line. *)
Definition is_piece (g : geometry) : bool :=
  match g with
  | Simple KPolygon _ => false
  | Simple _ (_ :: _) => true
  | _ => false
  end.

Definition piece_coords (g : geometry) : list point :=
  match g with
  | Simple _ cs => cs
  | Multi _ _ => []
  end.

(** ** The host's graphics context and paths *)

Record Bbox : Type := mkBbox { x0 : float; y0 : float; x1 : float; y1 : float }.

Record GraphicsContext : Type := mkGC {
  get_rgb : RGBA;
  get_clip_rectangle : option Bbox;
  get_hatch : option string;
  get_hatch_color : RGBA
}.

(** A path under a transform: [path.transformed(transform).vertices], an
    N x 2 array of floats, and [path.get_extents(transform=transform)]. *)
Record Path : Type := mkPath {
  transformed_vertices : list point;
  get_extents : Bbox
}.

(** The host's text object, as far as [draw_text] reads it. *)
Record MText : Type := mkMText {
  _rotation_mode : option string;
  get_ha : string;
  get_va : string;
  get_unitless_position : point;
  get_transform : point -> point
}.

(** ** The drawing *)

Record LWPolyline : Type := mkLWPolyline {
  lw_handle : nat;
  lw_points : list point;
  closed : bool;
  lw_color : Z
}.

(** [pol.get_points(format="xyb")]: the bulge of a vertex given as (x, y)
    is 0. *)
Definition get_points_xyb (pol : LWPolyline) : list (float * float * float) :=
  List.map (fun p => (fst p, snd p, 0%float)) (lw_points pol).

Record PolylinePath : Type := mkPolylinePath {
  path_vertices : list (float * float * float);
  is_closed : bool;
  source_boundary_objects : list nat
}.

Record Hatch : Type := mkHatch {
  hatch_color : Z;
  paths : list PolylinePath
}.

Inductive TextEntityAlignment : Type :=
| TOP_LEFT | TOP_CENTER | TOP_RIGHT
| MIDDLE_LEFT | MIDDLE_CENTER | MIDDLE_RIGHT
| BOTTOM_LEFT | BOTTOM_CENTER | BOTTOM_RIGHT
| LEFT | CENTER | RIGHT.

Record Text : Type := mkText {
  text : pystr;
  text_height : float;
  rotation : float;
  text_color : Z;
  placement : option (point * TextEntityAlignment)
}.

Inductive entity : Type :=
| ELWPolyline (pol : LWPolyline)
| EHatch (h : Hatch)
| EText (t : Text).

Record RendererDxf : Type := mkRenderer {
  width : float;
  height : float;
  dpi : float;
  modelspace : list entity;
  _groupd : list string
}.

Definition set_modelspace (self : RendererDxf) (ms : list entity) : RendererDxf :=
  mkRenderer (width self) (height self) (dpi self) ms (_groupd self).

Definition set_groupd (self : RendererDxf) (g : list string) : RendererDxf :=
  mkRenderer (width self) (height self) (dpi self) (modelspace self) g.

(** ** Methods: renderer state and exceptions *)

Definition M (A : Type) : Type := RendererDxf -> outcome A * RendererDxf.

Definition ret {A} (a : A) : M A := fun self => (Ok a, self).

Definition raise {A} (e : exn) : M A := fun self => (Raise e, self).

Definition bind {A B} (c : M A) (k : A -> M B) : M B :=
  fun self =>
    match c self with
    | (Ok a, self') => k a self'
    | (Raise e, self') => (Raise e, self')
    end.

Definition lift {A} (c : outcome A) : M A := fun self => (c, self).

Declare Scope method_scope.
Delimit Scope method_scope with method.
Notation "x <- c ;; k" := (bind c (fun x => k))
  (at level 100, c at next level, right associativity) : method_scope.
Notation "c ;;; k" := (bind c (fun _ => k))
  (at level 100, right associativity) : method_scope.

(** [for x in l: body(x)] *)
Fixpoint for_ {A} (l : list A) (body : A -> M unit) : M unit :=
  match l with
  | [] => ret tt
  | x :: t => bind (body x) (fun _ => for_ t body)
  end.

(** [[body(x) for x in l]] *)
Fixpoint comprehension {A B} (l : list A) (body : A -> M B) : M (list B) :=
  match l with
  | [] => ret []
  | x :: t =>
      bind (body x) (fun y => bind (comprehension t body) (fun ys => ret (y :: ys)))
  end.

(** [self.modelspace.add_lwpolyline(points=..., close=..., dxfattribs=...)] *)
Definition add_lwpolyline (points : list point) (close : bool) (color : Z)
  : M LWPolyline :=
  fun self =>
    let pol := mkLWPolyline (length (modelspace self)) points close color in
    (Ok pol, set_modelspace self (modelspace self ++ [ELWPolyline pol])).

(** [self.modelspace.add_hatch(color=...)]: the new hatch's handle. *)
Definition add_hatch (color : Z) : M nat :=
  fun self =>
    (Ok (length (modelspace self)),
     set_modelspace self (modelspace self ++ [EHatch (mkHatch color [])])).

Definition alter_hatch (f : Hatch -> Hatch) (e : entity) : entity :=
  match e with
  | EHatch h => EHatch (f h)
  | _ => e
  end.

(** [hatch.paths.add_polyline_path(vertices, is_closed=...)]: the index of
    the new boundary path. *)
Definition add_polyline_path (hatch : nat) (vs : list (float * float * float))
    (is_closed : bool) : M nat :=
  fun self =>
    let n := match modelspace self !! hatch with
             | Some (EHatch h) => length (paths h)
             | _ => 0%nat
             end in
    (Ok n,
     set_modelspace self
       (alter (alter_hatch (fun h =>
                 mkHatch (hatch_color h) (paths h ++ [mkPolylinePath vs is_closed []])))
              hatch (modelspace self))).

(** [hatch.associate(hpath, entities)]: the boundary path records the
    handles of its source entities. *)
Definition associate (hatch hpath : nat) (entities : list LWPolyline) : M unit :=
  fun self =>
    (Ok tt,
     set_modelspace self
       (alter (alter_hatch (fun h =>
                 mkHatch (hatch_color h)
                   (alter (fun p => mkPolylinePath (path_vertices p) (is_closed p)
                                      (List.map lw_handle entities))
                          hpath (paths h))))
              hatch (modelspace self))).

(** [self.modelspace.add_text(s, height=..., rotation=..., dxfattribs=...)] *)
Definition add_text (s : pystr) (h rot : float) (color : Z) : M nat :=
  fun self =>
    (Ok (length (modelspace self)),
     set_modelspace self (modelspace self ++ [EText (mkText s h rot color None)])).

(** [text.set_placement(p, align=...)] *)
Definition set_placement (txt : nat) (p : point) (align : TextEntityAlignment)
  : M unit :=
  fun self =>
    (Ok tt,
     set_modelspace self
       (alter (fun e => match e with
                        | EText t => EText (mkText (text t) (text_height t) (rotation t)
                                              (text_color t) (Some (p, align)))
                        | _ => e
                        end)
              txt (modelspace self))).

(** ** Text helpers *)

(** [s.replace("\u2212", "-")] *)
Definition replace_minus (s : pystr) : pystr :=
  List.map (fun c => if (c =? 8722)%N then 45%N else c) s.

(** [s.encode("ascii", "ignore").decode()] *)
Definition encode_ascii_ignore (s : pystr) : pystr :=
  List.filter (fun c => (c <? 128)%N) s.

Definition is_ascii (s : pystr) : Prop := Forall (fun c => (c < 128)%N) s.

(** [re.sub]: scan from the left; where the pattern matches, [m] gives the
    number of characters of the match after its first one and the
    replacement; the scan goes on after the match. *)
Fixpoint re_sub (m : pystr -> option (nat * pystr)) (skip : nat) (s : pystr)
  : pystr :=
  match s with
  | [] => []
  | c :: t =>
      match skip with
      | S k => re_sub m k t
      | O =>
          match m s with
          | Some (n, repl) => repl ++ re_sub m n t
          | None => c :: re_sub m 0 t
          end
      end
  end.

Fixpoint strip_prefix (p s : pystr) : option pystr :=
  match p, s with
  | [], _ => Some s
  | a :: p', b :: s' => if (a =? b)%N then strip_prefix p' s' else None
  | _ :: _, [] => None
  end.

(** [(.*?)\}]: the shortest run without a newline that a closing brace
    follows. *)
Fixpoint until_brace (s : pystr) : option pystr :=
  match s with
  | [] => None
  | c :: t =>
      if (c =? 125)%N then Some []
      else if (c =? 10)%N then None
      else option_map (cons c) (until_brace t)
  end.

(** The pattern [\\mathbf\{(.*?)\}] replaced by its group. *)
Definition match_mathbf (s : pystr) : option (nat * pystr) :=
  match strip_prefix (pystr_of "\mathbf{") s with
  | Some r =>
      match until_brace r with
      | Some g => Some ((8 + length g)%nat, g)
      | None => None
      end
  | None => None
  end.

(** The pattern [[$]] replaced by the empty string. *)
Definition match_dollar (s : pystr) : option (nat * pystr) :=
  match s with
  | 36%N :: _ => Some (0%nat, [])
  | _ => None
  end.

(** The pattern [\\/] replaced by a space. *)
Definition match_thin_space (s : pystr) : option (nat * pystr) :=
  match s with
  | 92%N :: 47%N :: _ => Some (1%nat, [32%N])
  | _ => None
  end.

Record FontProperties : Type := mkFont { get_size_in_points : float }.

Definition alignment_map : list (string * TextEntityAlignment) :=
  [ ("TOP_LEFT", TOP_LEFT); ("TOP_CENTER", TOP_CENTER); ("TOP_RIGHT", TOP_RIGHT);
    ("MIDDLE_LEFT", MIDDLE_LEFT); ("MIDDLE_CENTER", MIDDLE_CENTER);
    ("MIDDLE_RIGHT", MIDDLE_RIGHT);
    ("BOTTOM_LEFT", BOTTOM_LEFT); ("BOTTOM_CENTER", BOTTOM_CENTER);
    ("BOTTOM_RIGHT", BOTTOM_RIGHT);
    ("LEFT", LEFT); ("CENTER", CENTER); ("RIGHT", RIGHT) ]%string.

(** [d.get(key, default)] *)
Fixpoint dict_get {V} (d : list (string * V)) (key : string) (default : V) : V :=
  match d with
  | [] => default
  | (k, v) :: t => if String.eqb k key then v else dict_get t key default
  end.

(** ** [RendererDxf._map_align] *)

Definition _map_align (align : string) (vert : bool) : outcome string :=
  obind
    (if existsb (String.eqb align)
          ["right"; "center"; "left"; "top"; "bottom"; "middle"]%string
     then Ok (upper align)
     else if String.eqb align "baseline" then Ok ""%string
     else if String.eqb align "center_baseline" then Ok "MIDDLE"%string
     else Raise NotImplementedError)
    (fun align =>
       if (vert && String.eqb align "CENTER")%bool then Ok "MIDDLE"%string
       else Ok align).

(** [mtext._rotation_mode == "anchor"] *)
Definition rotation_mode_is_anchor (mtext : MText) : bool :=
  match _rotation_mode mtext with
  | Some mode => String.eqb mode "anchor"
  | None => false
  end.

(** Lines 408-416 of [draw_text]: the anchor keywords, horizontal then
    vertical. *)
Definition resolve_alignment (angle : float) (mtext : MText)
  : outcome (string * string) :=
  if (angle =? 90)%float then
    obind
      (if rotation_mode_is_anchor mtext
       then _map_align (get_ha mtext) false
       else Ok "RIGHT"%string)
      (fun halign =>
         obind (_map_align (get_va mtext) true) (fun valign => Ok (halign, valign)))
  else
    obind (_map_align (get_ha mtext) false) (fun halign =>
    obind (_map_align (get_va mtext) true) (fun valign => Ok (halign, valign))).

(** Lines 418-421 of [draw_text]. *)
Definition compose_alignment (halign valign : string) : string :=
  let align := valign in
  let align := if String.eqb align "" then align else (align ++ "_")%string in
  (align ++ halign)%string.

(** Lines 383-402 of [draw_text]: the string that reaches [add_text]. *)
Definition emitted_text (s : pystr) : pystr :=
  let s := replace_minus s in
  match s with
  | c :: _ =>
      if (c =? 36)%N
      then re_sub match_thin_space 0 (re_sub match_dollar 0 (re_sub match_mathbf 0 s))
      else s
  | [] => []
  end.

(** What [_clip_mpl] returns: one vertex sequence, or a list of them. *)
Inductive verts : Type :=
| Flat (pts : list point)
| Nested (parts : list (list point)).

(** [len(vertices)] *)
Definition len (v : verts) : nat :=
  match v with
  | Flat pts => length pts
  | Nested parts => length parts
  end.

(** What [_draw_mpl_lwpoly] returns: [None], one polyline or a list. *)
Inductive poly_result : Type :=
| PNone
| POne (pol : LWPolyline)
| PList (pols : list LWPolyline).

(** The truth value of a result: [None] and the empty list are false, and so
    is a polyline without points (ezdxf's [LWPolyline.__len__]). *)
Definition truthy (poly : poly_result) : bool :=
  match poly with
  | PNone => false
  | POne pol => negb (Nat.eqb (length (lw_points pol)) 0)
  | PList pols => negb (Nat.eqb (length pols) 0)
  end.

Definition polylines_of (poly : poly_result) : list LWPolyline :=
  match poly with
  | PNone => []
  | POne pol => [pol]
  | PList pols => pols
  end.

(** The offsets the two loops of [_draw_mpl_hatch] go through, in order. *)
Definition tile_offsets (rows cols : Z) : list (Z * Z) :=
  List.flat_map
    (fun irow => List.map (fun icol => (irow, icol)) (range (- cols) (cols + 1)))
    (range (- rows) (rows + 1)).

(** Lines 128-133 of [_clip_mpl]: the corners of the clip rectangle. *)
Definition cliprect_of (bbox : Bbox) : list point :=
  [ (x0 bbox, y0 bbox); (x1 bbox, y0 bbox);
    (x1 bbox, y1 bbox); (x0 bbox, y1 bbox) ].

(** Line 141: the vertices without those that hold a NaN. *)
Definition strip_nans (vertices : list point) : list point :=
  List.filter (fun v => negb (is_nan (fst v) || is_nan (snd v))) vertices.

(** Lines 144-149: a single vertex is a point, anything else a line. *)
Definition line_of (vertices : list point) : geometry :=
  match vertices with
  | [v] => Point v
  | _ => LineString vertices
  end.

(** Line 256 of [_draw_mpl_hatch]: rows and columns for the extents of the
    parent path. *)
Definition tile_counts (ext : Bbox) (dpi : float) : outcome (Z * Z) :=
  let dx := (x1 ext - x0 ext)%float in
  let dy := (y1 ext - y0 ext)%float in
  obind (math_ceil (dy / dpi)) (fun r =>
  obind (math_ceil (dx / dpi)) (fun c => Ok (r - 1, c - 1))).

(** The polylines that [add_lwpolyline] makes of a list of vertex sequences,
    the first one with handle [h]. *)
Fixpoint polylines_at (h : nat) (color : Z) (parts : list (list point))
  : list LWPolyline :=
  match parts with
  | [] => []
  | points :: t => mkLWPolyline h points false color :: polylines_at (S h) color t
  end.

(** The hatch that fills a polyline: one boundary path with the polyline's
    vertices and closed state, associated with the polyline. *)
Definition fill_hatch_entity (color : Z) (pol : LWPolyline) : entity :=
  EHatch (mkHatch color
            [mkPolylinePath (get_points_xyb pol) (closed pol) [lw_handle pol]]).

(** Line 189 of [_draw_mpl_lwpoly]: does the sequence start at x = 0? *)
Definition starts_at_zero (points : list point) : bool :=
  match points with
  | v :: _ => (fst v =? 0)%float
  | [] => false
  end.

(** The keywords [_map_align] knows. *)
Definition vocabulary : list string :=
  [ "right"; "center"; "left"; "top"; "bottom"; "middle";
    "baseline"; "center_baseline" ]%string.

(** ** Sample collaborators

    Stand-ins for the libraries on the inputs of the scenarios below. *)
Module Sample.

(** A window (0,0)-(10,10) and a line that leaves it through the top and
    comes back; [intersection] is shapely's answer on this line and this
    window, the two pieces inside. *)
Definition window : Bbox := mkBbox 0 0 10 10.

Definition crossing_line : list point :=
  [ (2, 5); (2, 15); (8, 15); (8, 5) ]%float.

Definition two_pieces : geometry :=
  Multi KMultiLineString
    [ LineString [ (2, 5); (2, 10) ]%float;
      LineString [ (8, 10); (8, 5) ]%float ].

Definition intersection (line cliprect : geometry) : option geometry :=
  Some two_pieces.

(** An intersection that raises on every input. *)
Definition failing_intersection (line cliprect : geometry) : option geometry :=
  None.

(** The clipper on a polyline that lies inside the window: one part, the
    polyline itself. *)
Definition clip_polyline (p q : point) (vertices : list point) : verts :=
  Nested [vertices].

(** A tile that leaves one mark in the drawing. *)
Definition hatch_tile (gc : GraphicsContext) (path : Path) (dxfcolor : Z)
    (pline : poly_result) (irow icol : Z) : M unit :=
  bind (add_lwpolyline [] false dxfcolor) (fun _ => ret tt).

Definition black : RGBA := mkRGBA 0 0 0 (Some 1%float).
Definition red_face : RGBA := mkRGBA 1 0 0 None.

Definition gc_window : GraphicsContext :=
  mkGC black (Some window) None black.

Definition gc_unclipped : GraphicsContext :=
  mkGC black None None black.

Definition gc_hatched : GraphicsContext :=
  mkGC black None (Some "/"%string) black.

Definition renderer : RendererDxf := mkRenderer 640 480 100 [] [].

Definition square : Path :=
  mkPath [ (0, 0); (10, 0); (10, 10); (0, 10); (0, 0) ]%float
         (mkBbox 0 0 10 10).

Definition gc_big_window : GraphicsContext :=
  mkGC black (Some (mkBbox 0 0 20 20)) None black.

Definition mtext_anchor_left : MText :=
  mkMText (Some "anchor"%string) "left" "top" (0, 0)%float (fun p => p).

Definition mtext_default_left : MText :=
  mkMText (Some "default"%string) "left" "top" (0, 0)%float (fun p => p).

Definition font : FontProperties := mkFont 12.

End Sample.

(** ** What a call leaves of the renderer

    [grows_by P self self']: the canvas size, the resolution and the group
    stack are those of [self], and the drawing of [self'] is the drawing of
    [self] followed by new entities, all of them in [P]. *)
Definition grows_by (P : entity -> Prop) (self self' : RendererDxf) : Prop :=
  width self' = width self
  /\ height self' = height self
  /\ dpi self' = dpi self
  /\ _groupd self' = _groupd self
  /\ exists new, modelspace self' = modelspace self ++ new /\ Forall P new.

Definition only_adds {A} (P : entity -> Prop) (c : M A) : Prop :=
  forall self, grows_by P self (snd (c self)).

Definition any_entity (e : entity) : Prop := True.

(** An open polyline of colour [color]. *)
Definition open_polyline (color : Z) (e : entity) : Prop :=
  exists pol, e = ELWPolyline pol /\ closed pol = false /\ lw_color pol = color.

Definition is_text (e : entity) : Prop := exists t, e = EText t.

(** [np.isnan(v).any()] *)
Definition has_nan (v : point) : bool := is_nan (fst v) || is_nan (snd v).

(** The horizontal part of an alignment of the output format. *)
Definition horizontal_part (a : TextEntityAlignment) : string :=
  match a with
  | TOP_LEFT | MIDDLE_LEFT | BOTTOM_LEFT | LEFT => "LEFT"
  | TOP_CENTER | MIDDLE_CENTER | BOTTOM_CENTER | CENTER => "CENTER"
  | TOP_RIGHT | MIDDLE_RIGHT | BOTTOM_RIGHT | RIGHT => "RIGHT"
  end.

(** The vertical part; the alignments without one sit on the baseline. *)
Definition vertical_part (a : TextEntityAlignment) : string :=
  match a with
  | TOP_LEFT | TOP_CENTER | TOP_RIGHT => "TOP"
  | MIDDLE_LEFT | MIDDLE_CENTER | MIDDLE_RIGHT => "MIDDLE"
  | BOTTOM_LEFT | BOTTOM_CENTER | BOTTOM_RIGHT => "BOTTOM"
  | LEFT | CENTER | RIGHT => ""
  end.


(** The keywords with which lines 408-416 raise. *)
Definition alignment_unsupported (angle : float) (mtext : MText) : Prop :=
  ~ In (get_va mtext) vocabulary
  \/ (~ In (get_ha mtext) vocabulary
      /\ ((angle =? 90)%float = false \/ rotation_mode_is_anchor mtext = true)).

(** An open polyline of colour [stroke] or the fill hatch of some polyline
    in colour [fill]. *)
Definition outline_or_fill (stroke fill : Z) (e : entity) : Prop :=
  open_polyline stroke e \/ exists pol, e = fill_hatch_entity fill pol.

(** Membership of a keyword in a list of keywords. *)
Definition keyword_in (k : string) (l : list string) : bool :=
  existsb (String.eqb k) l.

(** Characters that no pattern of [draw_text] touches. *)
Definition plain (c : N) : bool :=
  negb ((c =? 36) || (c =? 125) || (c =? 10) || (c =? 92) || (c =? 8722))%N.

(** ** More scenes for the sample collaborators *)
Module Scene.

(** A tick of the x axis is being drawn: the line of the tick inside the
    group of the tick. *)
Definition in_tick : RendererDxf :=
  mkRenderer 640 480 100 [] [ "axes"; "xtick_1"; "line2d" ]%string.

Definition in_patch : RendererDxf :=
  mkRenderer 640 480 100 [] [ "axes"; "patch" ]%string.

(** A tick mark of length 4 placed at a vertex. *)
Definition tick_at (v : point) : Path :=
  mkPath [ (fst v, snd v); (fst v, snd v - 4) ]%float
         (mkBbox (fst v) (snd v - 4) (fst v) (snd v)).

Definition axis : Path :=
  mkPath [ (20, 40); (60, 40); (100, 40) ]%float (mkBbox 20 40 100 40).

(** A line with a gap: the second vertex holds a NaN. *)
Definition gap : point := (nan, 7%float).


Definition mtext_center_baseline : MText :=
  mkMText None "center" "center_baseline" (3, 4)%float (fun p => p).

Definition flat_bar : Path :=
  mkPath [ (5, 20); (305, 20); (305, 20); (5, 20) ]%float (mkBbox 5 20 305 20).

Definition bar : Path :=
  mkPath [ (5, 20); (305, 20); (305, 170); (5, 170) ]%float (mkBbox 5 20 305 170).

End Scene.

(** ** The renderer *)

Section Renderer.

(** [dxf_colors.WHITE] and [dxf_colors.nearest_index]; an integer channel
    such as 255 is passed as the float of the same value. *)
Variable WHITE : Z.
Variable nearest_index : list float -> Z.

(** shapely's [line.intersection(cliprect)]; [None] when it raises. *)
Variable intersection : geometry -> geometry -> option geometry.

(** ezdxf's [ClippingRect2d(p, q).clip_polyline(vertices)]. *)
Variable clip_polyline : point -> point -> list point -> verts.

(** Lines 276-312 of [_draw_mpl_hatch], the body of the two loops: the
    hatch cell is moved to the tile at (irow, icol), cut into polygons,
    clipped against the polylines and emitted. Every step of it is a call
    into matplotlib, shapely or ezdxf, so the body as a whole is a
    collaborator; it may add entities and it may raise. *)
Variable hatch_tile :
  GraphicsContext -> Path -> Z -> poly_result -> Z -> Z -> M unit.

Definition rgb_to_dxf (rgb_val : option RGBA) : Z :=
  match rgb_val with
  | None => WHITE
  | Some c =>
      if allclose (rgb3 c) (zeros 3)
      then nearest_index [255; 255; 255]%float
      else nearest_index (List.map (fun val => (255 * val)%float) (rgb3 c))
  end.

Definition _get_polyline_attribs (gc : GraphicsContext) : Z :=
  rgb_to_dxf (Some (get_rgb gc)).

Definition _clip_mpl (gc : GraphicsContext) (vertices : list point)
    (obj : string) : outcome verts :=
  match get_clip_rectangle gc with
  | None => Ok (Flat vertices)
  | Some bbox =>
      let cliprect := cliprect_of bbox in
      if String.eqb obj "patch" then
        Ok (clip_polyline (x0 bbox, y0 bbox) (x1 bbox, y1 bbox) vertices)
      else if String.eqb obj "line2d" then
        let vertices := strip_nans vertices in
        let cliprect := Polygon cliprect in
        let line := line_of vertices in
        let inter :=
          match intersection line cliprect with
          | Some g => g
          | None => Polygon []
          end in
        if is_empty inter then Ok (Flat [])
        else if (str_in "Multi" (geom_type inter)
                 || str_in "GeometryCollection" (geom_type inter))%bool
        then obind (geoms inter) (fun gs =>
             obind (omap coords gs) (fun parts => Ok (Nested parts)))
        else obind (coords inter) (fun cs => Ok (Flat cs))
      else Ok (Flat vertices)
  end.

Local Open Scope method_scope.

(** A path's vertices are an N x 2 array of floats, so the test of line 177
    holds for every non-empty path and line 178 clips it as one sequence.
    After the clip, [vertices[0][0]] is a float for a flat sequence, a
    vertex for a list of sequences, and an [IndexError] when the first
    sequence of the list is empty. *)
Definition _draw_mpl_lwpoly (gc : GraphicsContext) (path : Path)
    (obj : string) : M poly_result :=
  let dxfattribs := _get_polyline_attribs gc in
  let vertices := transformed_vertices path in
  if Nat.ltb 0 (length vertices) then
    vertices <- lift (_clip_mpl gc vertices obj) ;;
    if Nat.eqb (len vertices) 0 then ret PNone
    else
      match vertices with
      | Flat [] => raise IndexError
      | Flat ((v :: _) as points) =>
          if negb (fst v =? 0)%float then
            entity <- add_lwpolyline points false dxfattribs ;;
            ret (POne entity)
          else ret PNone
      | Nested [] => raise IndexError
      | Nested ([] :: _) => raise IndexError
      | Nested (((_ :: _) :: _) as parts) =>
          entity <- comprehension parts
                      (fun points => add_lwpolyline points false dxfattribs) ;;
          ret (PList entity)
      end
  else ret PNone.

Definition _draw_mpl_line2d (gc : GraphicsContext) (path : Path) : M unit :=
  line <- _draw_mpl_lwpoly gc path "line2d" ;;
  ret tt.

(** Lines 218-227 and 229-238 of [_draw_mpl_patch]. *)
Definition fill_hatch (rgbFace : RGBA) (pol : LWPolyline) : M unit :=
  hatch <- add_hatch (rgb_to_dxf (Some rgbFace)) ;;
  hpath <- add_polyline_path hatch (get_points_xyb pol) (closed pol) ;;
  associate hatch hpath [pol].

(** Lines 215-238 of [_draw_mpl_patch]. *)
Definition fill_patch (rgbFace : option RGBA) (poly : poly_result) : M unit :=
  match rgbFace with
  | Some face =>
      match poly with
      | PList pols => for_ pols (fill_hatch face)
      | POne pol => fill_hatch face pol
      | PNone => raise AttributeError
      end
  | None => ret tt
  end.

Definition _draw_mpl_hatch (gc : GraphicsContext) (path : Path)
    (pline : poly_result) : M unit :=
  match get_hatch gc with
  | Some _ =>
      fun self =>
        let ext := get_extents path in
        (counts <- lift (tile_counts ext (dpi self)) ;;
         let rows := fst counts in
         let cols := snd counts in
         let dxfcolor := rgb_to_dxf (Some (get_hatch_color gc)) in
         for_ (range (- rows) (rows + 1)) (fun irow =>
           for_ (range (- cols) (cols + 1)) (fun icol =>
             hatch_tile gc path dxfcolor pline irow icol))) self
  | None => ret tt
  end.

Definition _draw_mpl_patch (gc : GraphicsContext) (path : Path)
    (rgbFace : option RGBA) : M unit :=
  poly <- _draw_mpl_lwpoly gc path "patch" ;;
  if negb (truthy poly) then ret tt
  else
    fill_patch rgbFace poly ;;;
    _draw_mpl_hatch gc path poly.

(** [self._groupd[-1]] *)
Definition last_group : M string :=
  fun self =>
    match rev (_groupd self) with
    | g :: _ => (Ok g, self)
    | [] => (Raise IndexError, self)
    end.

Definition draw_path (gc : GraphicsContext) (path : Path)
    (rgbFace : option RGBA) : M unit :=
  g <- last_group ;;
  if String.eqb g "patch" then _draw_mpl_patch gc path rgbFace
  else if String.eqb g "line2d" then _draw_mpl_line2d gc path
  else ret tt.

Definition open_group (s : string) : M unit :=
  fun self => (Ok tt, set_groupd self (_groupd self ++ [s])).

Definition close_group (s : string) : M unit :=
  fun self =>
    match _groupd self with
    | [] => (Raise IndexError, self)
    | g => (Ok tt, set_groupd self (removelast g))
    end.

Definition points_to_pixels (points : float) : M float :=
  fun self => (Ok (points / 72 * dpi self)%float, self).

Definition draw_text (gc : GraphicsContext) (x y : float) (s : pystr)
    (prop : FontProperties) (angle : float) (ismath : bool)
    (mtext : option MText) : M unit :=
  match mtext with
  | None => ret tt
  | Some mtext =>
      px <- points_to_pixels (get_size_in_points prop) ;;
      let fontsize := (px / 2)%float in
      let dxfcolor := rgb_to_dxf (Some (get_rgb gc)) in
      let s := replace_minus s in
      let _ := encode_ascii_ignore s in
      c <- lift (match s with
                 | c :: _ => Ok c
                 | [] => Raise IndexError
                 end) ;;
      txt <- (if (c =? 36)%N then
                let stripped_text := re_sub match_mathbf 0 s in
                let stripped_text := re_sub match_dollar 0 stripped_text in
                let stripped_text := re_sub match_thin_space 0 stripped_text in
                add_text stripped_text fontsize angle dxfcolor
              else add_text s fontsize angle dxfcolor) ;;
      aligns <- lift (resolve_alignment angle mtext) ;;
      let align := compose_alignment (fst aligns) (snd aligns) in
      let align := dict_get alignment_map align BOTTOM_LEFT in
      let pos := get_unitless_position mtext in
      let p1 := get_transform mtext pos in
      set_placement txt p1 align
  end.

(** [self._groupd[-2]] *)
Definition enclosing_group : M string :=
  fun self =>
    match rev (_groupd self) with
    | _ :: g :: _ => (Ok g, self)
    | _ => (Raise IndexError, self)
    end.

(** [path] is the path under [trans]; [marker_at (dx, dy)] is [marker_path]
    under [marker_trans + Affine2D().translate(dx, dy)]. Both operands of
    [&] are evaluated. *)
Definition draw_markers (gc : GraphicsContext) (marker_at : point -> Path)
    (path : Path) (rgbFace : option RGBA) : M unit :=
  g1 <- last_group ;;
  g2 <- enclosing_group ;;
  if (String.eqb g1 "line2d" && str_in "tick" g2)%bool then
    v <- lift (match transformed_vertices path with
               | v :: _ => Ok v
               | [] => Raise IndexError
               end) ;;
    _draw_mpl_line2d gc (marker_at v)
  else ret tt.

(** [paths] are the paths under [master_transform], [facecolors] the rows
    of the array of face colours; the other arguments are not read. *)
Definition draw_path_collection (gc : GraphicsContext) (paths : list Path)
    (facecolors : list RGBA) : M unit :=
  for_ paths (fun path =>
    let rgbFace :=
      match facecolors with
      | c :: _ => Some c
      | [] => None
      end in
    _draw_mpl_patch gc path rgbFace).

Definition draw_image (gc : GraphicsContext) (x y : float) : M unit := ret tt.

(** ** Properties *)

Local Close Scope method_scope.

(** *** Renderer state *)

Lemma set_modelspace_same self : set_modelspace self (modelspace self) = self.
Proof. destruct self; reflexivity. Qed.

Lemma alter_last {A} (f : A -> A) (l : list A) (x : A) :
  alter f (length l) (l ++ [x]) = l ++ [f x].
Proof.
  rewrite alter_app_r_alt by lia.
  rewrite Nat.sub_diag. reflexivity.
Qed.

(** *** Colour quantizer *)

(** C6: a colour whose channels are all within tolerance of 0 (as
    [numpy.allclose] has it) gets the index nearest to white; in particular
    (0,0,0) gets the index of (1,1,1), whatever the alpha channels; and
    [None] gets [dxf_colors.WHITE]. *)
Theorem rgb_to_dxf_black_is_white (c : RGBA) (a b : option float) :
  allclose (rgb3 c) (zeros 3) = true ->
  rgb_to_dxf (Some c) = nearest_index [255; 255; 255]%float
  /\ rgb_to_dxf (Some c) = rgb_to_dxf (Some (mkRGBA 1 1 1 b))
  /\ rgb_to_dxf (Some (mkRGBA 0 0 0 a)) = rgb_to_dxf (Some (mkRGBA 1 1 1 b))
  /\ rgb_to_dxf None = WHITE.
Proof.
  intros Hblack. unfold rgb_to_dxf. rewrite Hblack.
  repeat split; reflexivity.
Qed.

(** *** Alignment mapper *)

Lemma vocabulary_existsb (align : string) :
  existsb (String.eqb align) vocabulary = true <-> In align vocabulary.
Proof.
  rewrite existsb_exists. split.
  - intros (k & Hk & E). apply String.eqb_eq in E. subst k. exact Hk.
  - intros H. exists align. split; [exact H | apply String.eqb_refl].
Qed.

Lemma map_align_in_vocabulary (align : string) (vert : bool) :
  In align vocabulary -> exists r, _map_align align vert = Ok r.
Proof.
  unfold vocabulary. simpl. intros H.
  repeat (destruct H as [<- | H];
          [destruct vert; eexists; reflexivity |]).
  destruct H.
Qed.

Lemma map_align_outside_vocabulary (align : string) (vert : bool) :
  ~ In align vocabulary -> _map_align align vert = Raise NotImplementedError.
Proof.
  intros Hout.
  assert (E : existsb (String.eqb align) vocabulary = false).
  { destruct (existsb (String.eqb align) vocabulary) eqn:E; [|reflexivity].
    apply vocabulary_existsb in E. contradiction. }
  unfold vocabulary in E. simpl in E.
  repeat (apply orb_false_iff in E; destruct E as [? E]).
  unfold _map_align. simpl existsb.
  repeat match goal with H : String.eqb _ _ = false |- _ => rewrite H; clear H end.
  reflexivity.
Qed.

(** C7: [_map_align] raises (and then it is [NotImplementedError]) exactly
    on a keyword outside the vocabulary and returns on every keyword
    inside: the simple keywords in upper case, with "CENTER" turned into
    "MIDDLE" on the vertical axis, "baseline" as the empty string and
    "center_baseline" as "MIDDLE". *)
Theorem map_align_raises_exactly_outside_vocabulary
    (align : string) (vert : bool) :
  (_map_align align vert = Raise NotImplementedError <-> ~ In align vocabulary)
  /\ ((exists r, _map_align align vert = Ok r) <-> In align vocabulary)
  /\ _map_align "right" vert = Ok "RIGHT"%string
  /\ _map_align "left" vert = Ok "LEFT"%string
  /\ _map_align "top" vert = Ok "TOP"%string
  /\ _map_align "bottom" vert = Ok "BOTTOM"%string
  /\ _map_align "middle" vert = Ok "MIDDLE"%string
  /\ _map_align "center" false = Ok "CENTER"%string
  /\ _map_align "center" true = Ok "MIDDLE"%string
  /\ _map_align "baseline" vert = Ok ""%string
  /\ _map_align "center_baseline" vert = Ok "MIDDLE"%string.
Proof.
  split; [|split].
  - split.
    + intros Hraise Hin.
      destruct (map_align_in_vocabulary align vert Hin) as [r Hr].
      congruence.
    + apply map_align_outside_vocabulary.
  - split.
    + intros [r Hr].
      destruct (existsb (String.eqb align) vocabulary) eqn:E.
      * apply vocabulary_existsb. exact E.
      * assert (Hout : ~ In align vocabulary).
        { intros Hin. apply vocabulary_existsb in Hin. congruence. }
        rewrite (map_align_outside_vocabulary align vert Hout) in Hr.
        discriminate.
    + apply map_align_in_vocabulary.
  - destruct vert; repeat split; reflexivity.
Qed.

(** *** Text placer *)

(** C8, as the code has it: the horizontal keyword is "RIGHT", and the
    host's horizontal alignment is not even mapped, when the angle equals
    90.0 and the rotation mode is not "anchor"; in every other case (another
    angle, or the rotation mode "anchor") the host's horizontal alignment is
    mapped by [_map_align]. The vertical alignment is mapped in all cases. *)
Theorem resolve_alignment_forces_right_unless_anchor
    (angle : float) (mtext : MText) :
  resolve_alignment angle mtext =
  if ((angle =? 90)%float && negb (rotation_mode_is_anchor mtext))%bool
  then obind (_map_align (get_va mtext) true)
             (fun valign => Ok ("RIGHT"%string, valign))
  else obind (_map_align (get_ha mtext) false) (fun halign =>
       obind (_map_align (get_va mtext) true) (fun valign =>
       Ok (halign, valign))).
Proof.
  unfold resolve_alignment.
  destruct (angle =? 90)%float; simpl; [|reflexivity].
  destruct (rotation_mode_is_anchor mtext); reflexivity.
Qed.

(** What a text call leaves in the drawing when the string is not empty
    and the alignment keywords are in the vocabulary. *)
Lemma draw_text_emits gc x y c s prop angle ismath mtext self halign valign :
  resolve_alignment angle mtext = Ok (halign, valign) ->
  draw_text gc x y (c :: s) prop angle ismath (Some mtext) self =
  (Ok tt,
   set_modelspace self
     (modelspace self ++
      [EText (mkText (emitted_text (c :: s))
                (get_size_in_points prop / 72 * dpi self / 2)%float
                angle
                (rgb_to_dxf (Some (get_rgb gc)))
                (Some (get_transform mtext (get_unitless_position mtext),
                       dict_get alignment_map
                         (compose_alignment halign valign) BOTTOM_LEFT)))])).
Proof.
  intros Hres.
  unfold draw_text, emitted_text, bind, lift, points_to_pixels. simpl.
  destruct ((if (c =? 8722)%N then 45%N else c) =? 36)%N;
    unfold add_text, set_placement; simpl; rewrite Hres; simpl;
    rewrite alter_last; reflexivity.
Qed.

(** C10: with a text object supplied, [draw_text] on the empty string
    raises [IndexError] at [s[0]], before anything is added to the drawing;
    without a text object the call does nothing. *)
Theorem draw_text_empty_string_raises
    (gc : GraphicsContext) (x y : float) (prop : FontProperties)
    (angle : float) (ismath : bool) (mtext : MText) (self : RendererDxf) :
  draw_text gc x y [] prop angle ismath (Some mtext) self
    = (Raise IndexError, self)
  /\ draw_text gc x y [] prop angle ismath None self = (Ok tt, self).
Proof. split; reflexivity. Qed.

(** A text call that returns was given a non-empty string. *)
Lemma draw_text_returns_only_on_nonempty gc x y s prop angle ismath mtext self self' :
  draw_text gc x y s prop angle ismath (Some mtext) self = (Ok tt, self') ->
  s <> [].
Proof. intros H ->. discriminate H. Qed.

(** *** Clip engine *)

(** The test of lines 158-161 holds exactly for the multi-part kinds. *)
Lemma multi_part_test (g : geometry) :
  (str_in "Multi" (geom_type g) || str_in "GeometryCollection" (geom_type g))%bool
  = match g with Multi _ _ => true | Simple _ _ => false end.
Proof. destruct g as [[] ?|[] ?]; reflexivity. Qed.

Lemma omap_coords_pieces (gs : list geometry) :
  forallb is_piece gs = true ->
  omap coords gs = Ok (List.map piece_coords gs).
Proof.
  induction gs as [|g gs IH]; simpl; [reflexivity|].
  intros H. apply andb_true_iff in H. destruct H as [Hg Hgs].
  rewrite (IH Hgs).
  destruct g as [[] [|c cs]|]; simpl in Hg; try discriminate; reflexivity.
Qed.

Lemma pieces_not_empty (gs : list geometry) :
  gs <> [] -> forallb is_piece gs = true -> forallb is_empty gs = false.
Proof.
  destruct gs as [|g gs]; [congruence|].
  simpl. intros _ H. apply andb_true_iff in H. destruct H as [Hg _].
  destruct g as [[] [|c cs]|]; simpl in Hg; try discriminate; reflexivity.
Qed.

Lemma piece_coords_nonempty (gs : list geometry) :
  forallb is_piece gs = true -> Forall (fun cs => cs <> []) (List.map piece_coords gs).
Proof.
  induction gs as [|g gs IH]; simpl; intros H; constructor.
  - apply andb_true_iff in H. destruct H as [Hg _].
    destruct g as [[] [|c cs]|]; simpl in Hg; try discriminate; simpl; congruence.
  - apply IH. apply andb_true_iff in H. tauto.
Qed.

(** *** Path renderer *)

Lemma length_polylines_at h color parts :
  length (polylines_at h color parts) = length parts.
Proof. revert h. induction parts; intros h; simpl; [|rewrite IHparts]; reflexivity. Qed.

Lemma points_polylines_at h color parts :
  List.map lw_points (polylines_at h color parts) = parts.
Proof. revert h. induction parts; intros h; simpl; [|rewrite IHparts]; reflexivity. Qed.

Lemma polylines_at_open_and_coloured h color parts :
  Forall (fun pol => closed pol = false /\ lw_color pol = color)
         (polylines_at h color parts).
Proof.
  revert h. induction parts; intros h; simpl; constructor; auto.
Qed.

Lemma comprehension_add_lwpolyline parts color self :
  comprehension parts (fun points => add_lwpolyline points false color) self =
  (Ok (polylines_at (length (modelspace self)) color parts),
   set_modelspace self
     (modelspace self ++
      List.map ELWPolyline (polylines_at (length (modelspace self)) color parts))).
Proof.
  revert self. induction parts as [|points parts IH]; intros self.
  - simpl. unfold ret. rewrite app_nil_r, set_modelspace_same. reflexivity.
  - simpl. unfold bind at 1. unfold add_lwpolyline at 1.
    unfold bind at 1. rewrite IH. simpl modelspace.
    rewrite length_app. simpl length. rewrite Nat.add_1_r.
    rewrite <- app_assoc. reflexivity.
Qed.

(** What [_draw_mpl_lwpoly] returns is what it added to the drawing, and a
    result that counts as false is [None]. *)
Lemma draw_lwpoly_emitted gc path obj self poly self' :
  _draw_mpl_lwpoly gc path obj self = (Ok poly, self') ->
  self' = set_modelspace self
            (modelspace self ++ List.map ELWPolyline (polylines_of poly))
  /\ (truthy poly = false -> poly = PNone).
Proof.
  assert (Hnone : self = set_modelspace self (modelspace self ++ [])).
  { rewrite app_nil_r, set_modelspace_same. reflexivity. }
  unfold _draw_mpl_lwpoly.
  destruct (transformed_vertices path) as [|v0 vs]; simpl.
  { unfold ret. intros H. injection H as <- <-. split; [exact Hnone | reflexivity]. }
  unfold bind, lift.
  destruct (_clip_mpl gc (v0 :: vs) obj) as [v|e]; [|discriminate].
  destruct v as [[|v pts]|[|[|q part] parts]]; cbn -[comprehension];
    unfold ret, raise; try discriminate.
  - intros H. injection H as <- <-. split; [exact Hnone | reflexivity].
  - destruct (fst v =? 0)%float; simpl.
    + intros H. injection H as <- <-. split; [exact Hnone | reflexivity].
    + unfold bind, add_lwpolyline, ret. intros H. injection H as <- <-.
      split; [reflexivity | discriminate].
  - intros H. injection H as <- <-. split; [exact Hnone | reflexivity].
  - unfold bind. rewrite comprehension_add_lwpolyline.
    unfold ret. intros H. injection H as <- <-.
    split; [reflexivity | discriminate].
Qed.

(** C5: when shapely's intersection raises in a line-mode clip, the clip
    returns the empty contour set; the draw call then returns normally and
    leaves the drawing as it was. *)
Theorem clip_line_failure_is_empty
    (gc : GraphicsContext) (bbox : Bbox) (path : Path) (self : RendererDxf) :
  get_clip_rectangle gc = Some bbox ->
  intersection (line_of (strip_nans (transformed_vertices path)))
               (Polygon (cliprect_of bbox)) = None ->
  _clip_mpl gc (transformed_vertices path) "line2d" = Ok (Flat [])
  /\ _draw_mpl_lwpoly gc path "line2d" self = (Ok PNone, self)
  /\ _draw_mpl_line2d gc path self = (Ok tt, self).
Proof.
  intros Hbox Hraise.
  assert (Hclip : _clip_mpl gc (transformed_vertices path) "line2d" = Ok (Flat [])).
  { unfold _clip_mpl. rewrite Hbox. simpl. rewrite Hraise. reflexivity. }
  assert (Hdraw : _draw_mpl_lwpoly gc path "line2d" self = (Ok PNone, self)).
  { unfold _draw_mpl_lwpoly.
    destruct (Nat.ltb 0 (length (transformed_vertices path))); [|reflexivity].
    unfold bind, lift. rewrite Hclip. reflexivity. }
  repeat split; [exact Hclip | exact Hdraw |].
  unfold _draw_mpl_line2d, bind. rewrite Hdraw. reflexivity.
Qed.

(** C1: when the intersection of a line with the clip rectangle is a
    multi-part geometry made of disjoint pieces (non-empty points or
    curves), the clip returns the coordinates of every piece, one contour
    per piece and in order, and the renderer adds one polyline per piece,
    whose points are that piece's coordinates. *)
Theorem clip_line_keeps_every_piece
    (gc : GraphicsContext) (bbox : Bbox) (path : Path) (k : multi_kind)
    (gs : list geometry) (self : RendererDxf) :
  get_clip_rectangle gc = Some bbox ->
  intersection (line_of (strip_nans (transformed_vertices path)))
               (Polygon (cliprect_of bbox)) = Some (Multi k gs) ->
  gs <> [] ->
  forallb is_piece gs = true ->
  transformed_vertices path <> [] ->
  let contours := List.map piece_coords gs in
  let polys := polylines_at (length (modelspace self))
                 (rgb_to_dxf (Some (get_rgb gc))) contours in
  _clip_mpl gc (transformed_vertices path) "line2d" = Ok (Nested contours)
  /\ length contours = length gs
  /\ _draw_mpl_lwpoly gc path "line2d" self
     = (Ok (PList polys),
        set_modelspace self (modelspace self ++ List.map ELWPolyline polys))
  /\ length polys = length gs
  /\ List.map lw_points polys = contours.
Proof.
  intros Hbox Hinter Hgs Hpieces Hpath contours polys.
  assert (Hclip : _clip_mpl gc (transformed_vertices path) "line2d"
                  = Ok (Nested contours)).
  { unfold _clip_mpl. rewrite Hbox. simpl String.eqb. cbv iota.
    rewrite Hinter. cbv zeta.
    change (is_empty (Multi k gs)) with (forallb is_empty gs).
    rewrite (pieces_not_empty gs Hgs Hpieces).
    rewrite multi_part_test. simpl geoms. simpl obind.
    rewrite (omap_coords_pieces gs Hpieces). reflexivity. }
  split; [exact Hclip|].
  split; [apply length_map|].
  split; [|split].
  - unfold _draw_mpl_lwpoly.
    destruct (transformed_vertices path) as [|v0 vs] eqn:Hv; [congruence|].
    simpl Nat.ltb. cbv iota. unfold bind at 1. unfold lift.
    rewrite Hclip.
    pose proof (piece_coords_nonempty gs Hpieces) as Hne.
    fold contours in Hne. fold contours.
    destruct contours as [|[|q part] parts] eqn:Hc.
    + destruct gs; [congruence | discriminate].
    + inversion Hne; congruence.
    + cbn -[comprehension polylines_at]. unfold bind.
      rewrite comprehension_add_lwpolyline. reflexivity.
  - unfold polys. rewrite length_polylines_at. apply length_map.
  - apply points_polylines_at.
Qed.

(** C2, as the code has it: when the clip result is not empty, a list of
    contours is emitted as one polyline per contour, and a single flat
    contour as one polyline unless its first vertex has x = 0 (line 189),
    in which case nothing is emitted; every emitted polyline is open and
    has the index of the stroke colour. *)
Theorem draw_lwpoly_one_polyline_per_contour
    (gc : GraphicsContext) (path : Path) (obj : string) (self : RendererDxf)
    (v : verts) :
  transformed_vertices path <> [] ->
  _clip_mpl gc (transformed_vertices path) obj = Ok v ->
  len v <> 0%nat ->
  let color := rgb_to_dxf (Some (get_rgb gc)) in
  let h := length (modelspace self) in
  match v with
  | Nested parts =>
      hd [] parts <> [] ->
      _draw_mpl_lwpoly gc path obj self
      = (Ok (PList (polylines_at h color parts)),
         set_modelspace self
           (modelspace self ++ List.map ELWPolyline (polylines_at h color parts)))
      /\ List.map lw_points (polylines_at h color parts) = parts
      /\ Forall (fun pol => closed pol = false /\ lw_color pol = color)
                (polylines_at h color parts)
  | Flat points =>
      _draw_mpl_lwpoly gc path obj self
      = if starts_at_zero points then (Ok PNone, self)
        else (Ok (POne (mkLWPolyline h points false color)),
              set_modelspace self
                (modelspace self ++ [ELWPolyline (mkLWPolyline h points false color)]))
  end.
Proof.
  intros Hpath Hclip Hlen color h.
  unfold _draw_mpl_lwpoly.
  destruct (transformed_vertices path) as [|v0 vs] eqn:Hv; [congruence|].
  simpl Nat.ltb. cbv iota. unfold bind at 1. unfold lift. rewrite Hclip.
  destruct v as [[|p points]|[|[|q part] parts]];
    cbn -[comprehension polylines_at]; cbn -[comprehension polylines_at] in Hlen;
    try congruence.
  - destruct (fst p =? 0)%float; reflexivity.
  - intros _. unfold bind. rewrite comprehension_add_lwpolyline.
    split; [reflexivity|].
    split; [apply points_polylines_at | apply polylines_at_open_and_coloured].
Qed.

(** *** Filled patches *)

Lemma fill_hatch_appends face pol self :
  fill_hatch face pol self =
  (Ok tt,
   set_modelspace self
     (modelspace self ++ [fill_hatch_entity (rgb_to_dxf (Some face)) pol])).
Proof.
  unfold fill_hatch, bind, add_hatch, add_polyline_path, associate. simpl.
  rewrite list_lookup_middle by reflexivity. simpl.
  rewrite alter_last. simpl. rewrite alter_last. reflexivity.
Qed.

Lemma for_fill_hatch face pols self :
  for_ pols (fill_hatch face) self =
  (Ok tt,
   set_modelspace self
     (modelspace self ++
      List.map (fill_hatch_entity (rgb_to_dxf (Some face))) pols)).
Proof.
  revert self. induction pols as [|pol pols IH]; intros self; simpl.
  - unfold ret. rewrite app_nil_r, set_modelspace_same. reflexivity.
  - unfold bind. rewrite fill_hatch_appends, IH. simpl.
    rewrite <- app_assoc. reflexivity.
Qed.

Lemma fill_patch_appends face poly self :
  truthy poly = true ->
  fill_patch (Some face) poly self =
  (Ok tt,
   set_modelspace self
     (modelspace self ++
      List.map (fill_hatch_entity (rgb_to_dxf (Some face))) (polylines_of poly))).
Proof.
  destruct poly as [|pol|pols]; simpl; intros Ht.
  - discriminate.
  - apply fill_hatch_appends.
  - apply for_fill_hatch.
Qed.

(** C3: in a patch call with a fill colour, the polylines that
    [_draw_mpl_lwpoly] returned are the ones it added; when there is one at
    least, the fill adds one hatch per polyline, in order, with the
    quantized fill colour and one boundary path that has the polyline's
    points and its closed state and is associated with the polyline, and
    the call goes on with the hatch pattern; when there is none, the call
    returns and no hatch is added. *)
Theorem patch_fill_one_hatch_per_polyline
    (gc : GraphicsContext) (path : Path) (face : RGBA)
    (self self1 : RendererDxf) (poly : poly_result) :
  _draw_mpl_lwpoly gc path "patch" self = (Ok poly, self1) ->
  let color := rgb_to_dxf (Some face) in
  let pols := polylines_of poly in
  let filled :=
    set_modelspace self1
      (modelspace self1 ++ List.map (fill_hatch_entity color) pols) in
  modelspace self1 = modelspace self ++ List.map ELWPolyline pols
  /\ if truthy poly
     then fill_patch (Some face) poly self1 = (Ok tt, filled)
          /\ length (List.map (fill_hatch_entity color) pols) = length pols
          /\ _draw_mpl_patch gc path (Some face) self
             = _draw_mpl_hatch gc path poly filled
     else pols = []
          /\ _draw_mpl_patch gc path (Some face) self = (Ok tt, self1)
          /\ modelspace self1 = modelspace self.
Proof.
  intros Hdraw color pols filled.
  destruct (draw_lwpoly_emitted _ _ _ _ _ _ Hdraw) as [Hself1 Hfalse].
  split; [rewrite Hself1; reflexivity|].
  destruct (truthy poly) eqn:Ht.
  - split; [apply fill_patch_appends; exact Ht|].
    split; [apply length_map|].
    unfold _draw_mpl_patch. unfold bind at 1. rewrite Hdraw, Ht.
    cbv beta iota delta [negb]. unfold bind. rewrite (fill_patch_appends face poly self1 Ht).
    reflexivity.
  - pose proof (Hfalse eq_refl) as ->.
    split; [reflexivity|].
    split.
    + unfold _draw_mpl_patch, bind. rewrite Hdraw. reflexivity.
    + rewrite Hself1. simpl. rewrite app_nil_r. reflexivity.
Qed.

(** A patch call without a hatch pattern leaves the polylines and then
    their fill hatches in the drawing. *)
Lemma draw_patch_without_hatch_pattern gc path face self self1 poly :
  get_hatch gc = None ->
  _draw_mpl_lwpoly gc path "patch" self = (Ok poly, self1) ->
  truthy poly = true ->
  _draw_mpl_patch gc path (Some face) self =
  (Ok tt,
   set_modelspace self
     (modelspace self ++ List.map ELWPolyline (polylines_of poly)
      ++ List.map (fill_hatch_entity (rgb_to_dxf (Some face))) (polylines_of poly))).
Proof.
  intros Hhatch Hdraw Ht.
  destruct (draw_lwpoly_emitted _ _ _ _ _ _ Hdraw) as [Hself1 _].
  unfold _draw_mpl_patch. unfold bind at 1. rewrite Hdraw, Ht.
  cbv beta iota delta [negb]. unfold bind. rewrite (fill_patch_appends face poly self1 Ht).
  unfold _draw_mpl_hatch. rewrite Hhatch. unfold ret.
  rewrite Hself1. simpl. rewrite <- app_assoc. reflexivity.
Qed.

(** *** Hatch tiler *)

Lemma in_range (a b i : Z) : In i (range a b) <-> a <= i < b.
Proof.
  unfold range. rewrite in_map_iff. split.
  - intros (n & <- & Hn). apply in_seq in Hn. lia.
  - intros Hi. exists (Z.to_nat (i - a)). split; [lia|].
    apply in_seq. lia.
Qed.

Lemma length_range (a b : Z) : length (range a b) = Z.to_nat (b - a).
Proof. unfold range. rewrite length_map, length_seq. reflexivity. Qed.

Lemma in_tile_offsets (rows cols irow icol : Z) :
  In (irow, icol) (tile_offsets rows cols)
  <-> - rows <= irow <= rows /\ - cols <= icol <= cols.
Proof.
  unfold tile_offsets. rewrite in_flat_map. split.
  - intros (r & Hr & Hin). apply in_map_iff in Hin.
    destruct Hin as (c & E & Hc). injection E as <- <-.
    apply in_range in Hr. apply in_range in Hc. lia.
  - intros [Hr Hc]. exists irow. split; [apply in_range; lia|].
    apply in_map_iff. exists icol. split; [reflexivity | apply in_range; lia].
Qed.

Lemma length_flat_map_const {A B} (f : A -> list B) (n : nat) (l : list A) :
  (forall x, length (f x) = n) -> length (List.flat_map f l) = (length l * n)%nat.
Proof.
  intros Hf. induction l as [|x l IH]; simpl; [reflexivity|].
  rewrite length_app, Hf, IH. reflexivity.
Qed.

Lemma length_tile_offsets (rows cols : Z) :
  length (tile_offsets rows cols)
  = (Z.to_nat (2 * rows + 1) * Z.to_nat (2 * cols + 1))%nat.
Proof.
  unfold tile_offsets.
  rewrite (length_flat_map_const _ (Z.to_nat (2 * cols + 1))).
  - rewrite length_range. f_equal. f_equal. lia.
  - intros irow. rewrite length_map, length_range. f_equal. lia.
Qed.

Lemma for_app {A} (l1 l2 : list A) (f : A -> M unit) self :
  for_ (l1 ++ l2) f self = bind (for_ l1 f) (fun _ => for_ l2 f) self.
Proof.
  revert self. induction l1 as [|x l1 IH]; intros self; simpl.
  - reflexivity.
  - unfold bind.
    destruct (f x self) as [[[]|e] s]; [|reflexivity].
    rewrite IH. reflexivity.
Qed.

Lemma for_map {A B} (g : A -> B) (l : list A) (f : B -> M unit) self :
  for_ (List.map g l) f self = for_ l (fun x => f (g x)) self.
Proof.
  revert self. induction l as [|x l IH]; intros self; simpl.
  - reflexivity.
  - unfold bind. destruct (f (g x) self) as [[[]|e] s]; auto.
Qed.

(** The two nested loops go through [tile_offsets], in its order. *)
Lemma nested_loops_are_tile_offsets (rows cols : Z) (body : Z -> Z -> M unit) self :
  for_ (range (- rows) (rows + 1))
       (fun irow => for_ (range (- cols) (cols + 1)) (fun icol => body irow icol))
       self
  = for_ (tile_offsets rows cols) (fun o => body (fst o) (snd o)) self.
Proof.
  unfold tile_offsets. generalize (range (- rows) (rows + 1)) as rs.
  intros rs. revert self. induction rs as [|irow rs IH]; intros self; simpl.
  - reflexivity.
  - rewrite for_app. unfold bind. rewrite for_map. simpl.
    destruct (for_ (range (- cols) (cols + 1)) (fun icol => body irow icol) self)
      as [[[]|e] s]; auto.
Qed.

(** C4, as the code has it: with a hatch pattern, rows is
    ceil(dy / dpi) - 1 and cols is ceil(dx / dpi) - 1 for the extents dx,
    dy of the parent path; the tile body runs for the offsets (irow, icol)
    with -rows <= irow <= rows and -cols <= icol <= cols, row by row; there
    are (2 rows + 1)(2 cols + 1) of them when rows and cols are not
    negative, and none when one of them is negative. *)
Theorem hatch_tiles_cover_offset_grid
    (gc : GraphicsContext) (path : Path) (pline : poly_result)
    (self : RendererDxf) (pattern : string) (rows cols : Z) :
  get_hatch gc = Some pattern ->
  tile_counts (get_extents path) (dpi self) = Ok (rows, cols) ->
  let ext := get_extents path in
  (exists r c,
      math_ceil ((y1 ext - y0 ext) / dpi self)%float = Ok r
      /\ math_ceil ((x1 ext - x0 ext) / dpi self)%float = Ok c
      /\ rows = r - 1 /\ cols = c - 1)
  /\ _draw_mpl_hatch gc path pline self
     = for_ (tile_offsets rows cols)
            (fun o => hatch_tile gc path (rgb_to_dxf (Some (get_hatch_color gc)))
                        pline (fst o) (snd o))
            self
  /\ (forall irow icol,
        In (irow, icol) (tile_offsets rows cols)
        <-> - rows <= irow <= rows /\ - cols <= icol <= cols)
  /\ (0 <= rows -> 0 <= cols ->
      Z.of_nat (length (tile_offsets rows cols)) = (2 * rows + 1) * (2 * cols + 1))
  /\ (rows < 0 \/ cols < 0 -> tile_offsets rows cols = []).
Proof.
  intros Hhatch Hcounts ext.
  split; [|split; [|split; [|split]]].
  - unfold tile_counts in Hcounts. fold ext in Hcounts.
    destruct (math_ceil ((y1 ext - y0 ext) / dpi self)) as [r|]; [|discriminate].
    destruct (math_ceil ((x1 ext - x0 ext) / dpi self)) as [c|]; [|discriminate].
    simpl in Hcounts. injection Hcounts as <- <-.
    exists r, c. auto.
  - unfold _draw_mpl_hatch. rewrite Hhatch.
    unfold bind, lift. rewrite Hcounts. simpl fst. simpl snd.
    apply (nested_loops_are_tile_offsets rows cols
             (fun irow icol =>
                hatch_tile gc path (rgb_to_dxf (Some (get_hatch_color gc)))
                  pline irow icol)).
  - intros irow icol. apply in_tile_offsets.
  - intros Hr Hc. rewrite length_tile_offsets. lia.
  - intros Hneg. apply length_zero_iff_nil. rewrite length_tile_offsets.
    destruct Hneg as [H|H].
    + replace (Z.to_nat (2 * rows + 1)) with 0%nat by lia. reflexivity.
    + replace (Z.to_nat (2 * cols + 1)) with 0%nat by lia. lia.
Qed.

(** ** Further properties *)

(** *** The drawing only grows *)

Lemma grows_by_refl P self : grows_by P self self.
Proof.
  repeat split. exists []. split; [symmetry; apply app_nil_r | constructor].
Qed.

Lemma grows_by_trans P s1 s2 s3 :
  grows_by P s1 s2 -> grows_by P s2 s3 -> grows_by P s1 s3.
Proof.
  intros (Hw & Hh & Hd & Hg & n1 & Hn1 & HP1) (Hw' & Hh' & Hd' & Hg' & n2 & Hn2 & HP2).
  repeat split; try congruence.
  exists (n1 ++ n2). split.
  - rewrite Hn2, Hn1, <- app_assoc. reflexivity.
  - apply Forall_app. split; assumption.
Qed.

Lemma grows_by_weaken (P Q : entity -> Prop) s s' :
  (forall e, P e -> Q e) -> grows_by P s s' -> grows_by Q s s'.
Proof.
  intros HPQ (Hw & Hh & Hd & Hg & n & Hn & HP).
  repeat split; try assumption.
  exists n. split; [assumption|]. eapply Forall_impl; eassumption.
Qed.

Lemma grows_by_append P self new :
  Forall P new -> grows_by P self (set_modelspace self (modelspace self ++ new)).
Proof. intros HP. repeat split. exists new. split; [reflexivity | exact HP]. Qed.

Lemma only_adds_ret {A} P (a : A) : only_adds P (ret a).
Proof. intros self. apply grows_by_refl. Qed.

Lemma only_adds_raise {A} P e : only_adds P (@raise A e).
Proof. intros self. apply grows_by_refl. Qed.

Lemma only_adds_lift {A} P (c : outcome A) : only_adds P (lift c).
Proof. intros self. apply grows_by_refl. Qed.

Lemma only_adds_bind {A B} P (c : M A) (k : A -> M B) :
  only_adds P c -> (forall a, only_adds P (k a)) -> only_adds P (bind c k).
Proof.
  intros Hc Hk self. unfold bind.
  specialize (Hc self). destruct (c self) as [[a|e] s1]; simpl in *.
  - eapply grows_by_trans; [exact Hc | apply Hk].
  - exact Hc.
Qed.

Lemma only_adds_for {A} P (l : list A) (body : A -> M unit) :
  (forall x, only_adds P (body x)) -> only_adds P (for_ l body).
Proof.
  intros Hbody. induction l as [|x l IH]; simpl.
  - apply only_adds_ret.
  - apply only_adds_bind; [apply Hbody | intros _; exact IH].
Qed.

Lemma only_adds_weaken {A} (P Q : entity -> Prop) (c : M A) :
  (forall e, P e -> Q e) -> only_adds P c -> only_adds Q c.
Proof. intros HPQ Hc self. eapply grows_by_weaken; [exact HPQ | apply Hc]. Qed.

Lemma open_polylines_at h color parts :
  Forall (open_polyline color) (List.map ELWPolyline (polylines_at h color parts)).
Proof.
  revert h. induction parts as [|p parts IH]; intros h; simpl; constructor.
  - exists (mkLWPolyline h p false color). auto.
  - apply IH.
Qed.

(** What [_draw_mpl_lwpoly] does to the renderer, whatever it returns. *)
Lemma draw_lwpoly_state gc path obj self :
  snd (_draw_mpl_lwpoly gc path obj self) = self
  \/ (exists poly new,
        _draw_mpl_lwpoly gc path obj self
        = (Ok poly, set_modelspace self (modelspace self ++ new))
        /\ new <> []
        /\ Forall (open_polyline (rgb_to_dxf (Some (get_rgb gc)))) new).
Proof.
  unfold _draw_mpl_lwpoly.
  destruct (transformed_vertices path) as [|v0 vs]; simpl; [left; reflexivity|].
  unfold bind, lift.
  destruct (_clip_mpl gc (v0 :: vs) obj) as [v|e]; [|left; reflexivity].
  destruct v as [[|v pts]|[|[|q part] parts]]; cbn -[comprehension];
    try (left; reflexivity).
  - destruct (fst v =? 0)%float; simpl; [left; reflexivity|].
    right. eexists _, [_]. split; [reflexivity|]. split; [discriminate|].
    constructor; [|constructor]. eexists. split; [reflexivity|]. auto.
  - right. unfold bind. rewrite comprehension_add_lwpolyline.
    eexists _, _. split; [reflexivity|]. split; [discriminate|].
    apply open_polylines_at.
Qed.

(** X1: whatever it returns, [_draw_mpl_lwpoly] keeps the canvas size, the
    resolution, the group stack and every entity of the drawing, and what it
    adds are open polylines with the index of the stroke colour; when it
    raises, and when it returns [None], the renderer is as before. *)
Theorem draw_lwpoly_only_adds_open_polylines
    (gc : GraphicsContext) (path : Path) (obj : string) (self : RendererDxf) :
  grows_by (open_polyline (rgb_to_dxf (Some (get_rgb gc)))) self
           (snd (_draw_mpl_lwpoly gc path obj self))
  /\ match fst (_draw_mpl_lwpoly gc path obj self) with
     | Raise _ | Ok PNone => snd (_draw_mpl_lwpoly gc path obj self) = self
     | Ok poly =>
         snd (_draw_mpl_lwpoly gc path obj self)
         = set_modelspace self
             (modelspace self ++ List.map ELWPolyline (polylines_of poly))
     end.
Proof.
  split.
  - destruct (draw_lwpoly_state gc path obj self) as [H | (poly & new & H & _ & HP)].
    + rewrite H. apply grows_by_refl.
    + rewrite H. simpl. apply grows_by_append. exact HP.
  - destruct (_draw_mpl_lwpoly gc path obj self) as [[poly|e] s1] eqn:Hd; simpl.
    + destruct (draw_lwpoly_emitted _ _ _ _ _ _ Hd) as [Hs1 _].
      destruct poly; [|exact Hs1|exact Hs1].
      rewrite Hs1. simpl. rewrite app_nil_r. apply set_modelspace_same.
    + destruct (draw_lwpoly_state gc path obj self) as [H | (poly & new & H & _)].
      * rewrite Hd in H. exact H.
      * rewrite Hd in H. discriminate H.
Qed.

Lemma only_adds_draw_lwpoly gc path obj :
  only_adds any_entity (_draw_mpl_lwpoly gc path obj).
Proof.
  intros self.
  destruct (draw_lwpoly_state gc path obj self) as [H | (poly & new & H & _ & HP)].
  - rewrite H. apply grows_by_refl.
  - rewrite H. simpl. apply grows_by_append.
    eapply Forall_impl; [exact HP|]. intros; exact I.
Qed.

Lemma only_adds_fill_patch rgbFace poly :
  only_adds any_entity (fill_patch rgbFace poly).
Proof.
  intros self. destruct rgbFace as [face|]; [|apply grows_by_refl].
  destruct poly as [|pol|pols]; unfold fill_patch.
  - apply grows_by_refl.
  - rewrite fill_hatch_appends. apply grows_by_append.
    constructor; [exact I | constructor].
  - rewrite for_fill_hatch. apply grows_by_append.
    apply Forall_forall. intros; exact I.
Qed.

Section TilesOnlyAdd.

(** The collaborator that places a tile keeps to the rule. *)
Hypothesis hatch_tile_only_adds :
  forall gc path color pline irow icol,
    only_adds any_entity (hatch_tile gc path color pline irow icol).

Lemma only_adds_draw_hatch gc path pline :
  only_adds any_entity (_draw_mpl_hatch gc path pline).
Proof.
  intros self. unfold _draw_mpl_hatch.
  destruct (get_hatch gc); [|apply grows_by_refl].
  apply only_adds_bind; [apply only_adds_lift|].
  intros counts. apply only_adds_for. intros irow.
  apply only_adds_for. intros icol. apply hatch_tile_only_adds.
Qed.

Lemma only_adds_draw_patch gc path rgbFace :
  only_adds any_entity (_draw_mpl_patch gc path rgbFace).
Proof.
  unfold _draw_mpl_patch.
  apply only_adds_bind; [apply only_adds_draw_lwpoly|].
  intros poly. destruct (negb (truthy poly)); [apply only_adds_ret|].
  apply only_adds_bind; [apply only_adds_fill_patch|].
  intros _. apply only_adds_draw_hatch.
Qed.

Lemma only_adds_draw_line2d gc path :
  only_adds any_entity (_draw_mpl_line2d gc path).
Proof.
  unfold _draw_mpl_line2d.
  apply only_adds_bind; [apply only_adds_draw_lwpoly | intros; apply only_adds_ret].
Qed.

Lemma only_adds_last_group : only_adds any_entity last_group.
Proof.
  intros self. unfold last_group.
  destruct (rev (_groupd self)); apply grows_by_refl.
Qed.

Lemma only_adds_enclosing_group : only_adds any_entity enclosing_group.
Proof.
  intros self. unfold enclosing_group.
  destruct (rev (_groupd self)) as [|? [|? ?]]; apply grows_by_refl.
Qed.

(** X2: when the collaborator that places a hatch tile only adds entities,
    so do [draw_path], [draw_path_collection] and [draw_markers], also when
    they raise: the canvas size, the resolution and the group stack stay,
    and no entity of the drawing is removed or changed. *)
Theorem draw_calls_only_add
    (gc : GraphicsContext) (path : Path) (rgbFace : option RGBA)
    (paths : list Path) (facecolors : list RGBA) (marker_at : point -> Path)
    (self : RendererDxf) :
  grows_by any_entity self (snd (draw_path gc path rgbFace self))
  /\ grows_by any_entity self (snd (draw_path_collection gc paths facecolors self))
  /\ grows_by any_entity self (snd (draw_markers gc marker_at path rgbFace self)).
Proof.
  split; [|split].
  - apply (only_adds_bind any_entity last_group); [apply only_adds_last_group|].
    intros g. destruct (String.eqb g "patch"); [apply only_adds_draw_patch|].
    destruct (String.eqb g "line2d"); [apply only_adds_draw_line2d|].
    apply only_adds_ret.
  - apply (only_adds_for any_entity). intros p. apply only_adds_draw_patch.
  - apply (only_adds_bind any_entity last_group); [apply only_adds_last_group|].
    intros g1.
    apply (only_adds_bind any_entity enclosing_group);
      [apply only_adds_enclosing_group|].
    intros g2. destruct (String.eqb g1 "line2d" && str_in "tick" g2)%bool;
      [|apply only_adds_ret].
    apply only_adds_bind; [apply only_adds_lift|].
    intros v. apply only_adds_draw_line2d.
Qed.

End TilesOnlyAdd.

(** *** When a text call returns *)

Lemma map_align_cases (align : string) (vert : bool) :
  (In align vocabulary /\ exists r, _map_align align vert = Ok r)
  \/ (~ In align vocabulary /\ _map_align align vert = Raise NotImplementedError).
Proof using.
  destruct (existsb (String.eqb align) vocabulary) eqn:E.
  - left. apply vocabulary_existsb in E.
    split; [exact E | apply map_align_in_vocabulary; exact E].
  - right. assert (Hout : ~ In align vocabulary).
    { intros Hin. apply vocabulary_existsb in Hin. congruence. }
    split; [exact Hout | apply map_align_outside_vocabulary; exact Hout].
Qed.

Lemma resolve_alignment_cases (angle : float) (mtext : MText) :
  (~ alignment_unsupported angle mtext
   /\ exists halign valign, resolve_alignment angle mtext = Ok (halign, valign))
  \/ (alignment_unsupported angle mtext
      /\ resolve_alignment angle mtext = Raise NotImplementedError).
Proof using.
  unfold resolve_alignment, alignment_unsupported.
  destruct (map_align_cases (get_va mtext) true) as [[Hv [v Ev]]|[Hv Ev]];
    destruct (map_align_cases (get_ha mtext) false) as [[Hh [h Eh]]|[Hh Eh]];
    destruct (angle =? 90)%float; destruct (rotation_mode_is_anchor mtext);
    rewrite ?Ev, ?Eh; unfold obind;
    first [ left; split; [intuition congruence | eauto]
          | right; split; [intuition congruence | reflexivity] ].
Qed.

Lemma draw_text_alignment_raises gc x y c s prop angle ismath mtext self e :
  resolve_alignment angle mtext = Raise e ->
  draw_text gc x y (c :: s) prop angle ismath (Some mtext) self =
  (Raise e,
   set_modelspace self
     (modelspace self ++
      [EText (mkText (emitted_text (c :: s))
                (get_size_in_points prop / 72 * dpi self / 2)%float
                angle
                (rgb_to_dxf (Some (get_rgb gc)))
                None)])).
Proof.
  intros Hres.
  unfold draw_text, emitted_text, bind, lift, points_to_pixels. simpl.
  destruct ((if (c =? 8722)%N then 45%N else c) =? 36)%N;
    unfold add_text; simpl; rewrite Hres; reflexivity.
Qed.

(** X3: with a text object, [draw_text] returns exactly when the string is
    not empty, the vertical keyword is in the vocabulary of [_map_align] and
    the horizontal keyword is in it too or is not read (angle 90.0 and a
    rotation mode other than "anchor"). *)
Theorem draw_text_returns_iff
    (gc : GraphicsContext) (x y : float) (s : pystr) (prop : FontProperties)
    (angle : float) (ismath : bool) (mtext : MText) (self : RendererDxf) :
  (exists self',
      draw_text gc x y s prop angle ismath (Some mtext) self = (Ok tt, self'))
  <-> s <> []
      /\ In (get_va mtext) vocabulary
      /\ (In (get_ha mtext) vocabulary
          \/ ((angle =? 90)%float = true /\ rotation_mode_is_anchor mtext = false)).
Proof using WHITE nearest_index.
  clear hatch_tile intersection clip_polyline.
  destruct s as [|c s].
  - split; [intros [self' H]; discriminate H | intros [H _]; congruence].
  - destruct (resolve_alignment_cases angle mtext)
      as [[Hok (h & v & Hres)]|[Hbad Hres]].
    + split.
      * intros _. split; [discriminate|].
        unfold alignment_unsupported in Hok.
        destruct (map_align_cases (get_va mtext) true) as [[Hv _]|[Hv _]];
          [|tauto].
        split; [exact Hv|].
        destruct (map_align_cases (get_ha mtext) false) as [[Hh _]|[Hh _]];
          [left; exact Hh|].
        right. destruct (angle =? 90)%float;
          destruct (rotation_mode_is_anchor mtext); tauto.
      * intros _. eexists. apply draw_text_emits. exact Hres.
    + split.
      * intros [self' H].
        rewrite (draw_text_alignment_raises _ _ _ _ _ _ _ _ _ _ _ Hres) in H.
        discriminate H.
      * intros (_ & Hv & Hh). exfalso. unfold alignment_unsupported in Hbad.
        destruct Hbad as [Hbad|[Hbad Hmode]]; [tauto|].
        destruct Hh as [Hh|[Ha Hm]]; [tauto|].
        destruct Hmode; congruence.
Qed.


(** X5: whatever it returns, [draw_text] keeps the canvas size, the
    resolution, the group stack and every entity of the drawing, and adds at
    most one entity, a text. *)
Theorem draw_text_adds_at_most_one_text
    (gc : GraphicsContext) (x y : float) (s : pystr) (prop : FontProperties)
    (angle : float) (ismath : bool) (mtext : option MText) (self : RendererDxf) :
  grows_by is_text self (snd (draw_text gc x y s prop angle ismath mtext self))
  /\ (length (modelspace (snd (draw_text gc x y s prop angle ismath mtext self)))
      <= S (length (modelspace self)))%nat.
Proof.
  destruct mtext as [mtext|]; [|split; [apply grows_by_refl | simpl; lia]].
  destruct s as [|c s]; [split; [apply grows_by_refl | simpl; lia]|].
  destruct (resolve_alignment_cases angle mtext)
    as [[_ (h & v & Hres)]|[_ Hres]].
  - rewrite (draw_text_emits _ _ _ _ _ _ _ _ _ _ _ _ Hres). simpl. split.
    + apply grows_by_append. constructor; [eexists; reflexivity | constructor].
    + rewrite length_app. simpl. lia.
  - rewrite (draw_text_alignment_raises _ _ _ _ _ _ _ _ _ _ _ Hres). simpl. split.
    + apply grows_by_append. constructor; [eexists; reflexivity | constructor].
    + rewrite length_app. simpl. lia.
Qed.

(** *** Groups *)

Lemma set_groupd_same self : set_groupd self (_groupd self) = self.
Proof. destruct self; reflexivity. Qed.

Lemma open_group_state s self :
  open_group s self = (Ok tt, set_groupd self (_groupd self ++ [s])).
Proof. reflexivity. Qed.

Lemma last_group_inside g gs self :
  last_group (set_groupd self (gs ++ [g])) = (Ok g, set_groupd self (gs ++ [g])).
Proof. unfold last_group. simpl. rewrite rev_unit. reflexivity. Qed.

Lemma close_group_inside s g gs self :
  close_group s (set_groupd self (gs ++ [g])) = (Ok tt, set_groupd self gs).
Proof.
  assert (H : forall l, l <> [] ->
              close_group s (set_groupd self l)
              = (Ok tt, set_groupd self (removelast l))).
  { intros l Hl. unfold close_group. destruct l; [congruence | reflexivity]. }
  rewrite H by (destruct gs; discriminate).
  rewrite removelast_last. reflexivity.
Qed.

(** X6: [close_group] undoes [open_group], whatever the two names are:
    the renderer is the one before; between the two, the group opened is
    the innermost one; and [close_group] on an empty stack raises
    [IndexError]. *)
Theorem open_close_group_round_trip (s s' : string) (self : RendererDxf) :
  bind (open_group s) (fun _ => close_group s') self = (Ok tt, self)
  /\ bind (open_group s) (fun _ => last_group) self
     = (Ok s, set_groupd self (_groupd self ++ [s]))
  /\ close_group s (set_groupd self []) = (Raise IndexError, set_groupd self []).
Proof.
  split; [|split].
  - unfold bind. rewrite open_group_state, close_group_inside.
    rewrite set_groupd_same. reflexivity.
  - unfold bind. rewrite open_group_state. apply last_group_inside.
  - reflexivity.
Qed.

(** Drawing polylines neither reads nor writes the group stack. *)
Lemma draw_lwpoly_frame gc path obj self g :
  _draw_mpl_lwpoly gc path obj (set_groupd self g)
  = (fst (_draw_mpl_lwpoly gc path obj self),
     set_groupd (snd (_draw_mpl_lwpoly gc path obj self)) g).
Proof.
  unfold _draw_mpl_lwpoly.
  destruct (transformed_vertices path) as [|v0 vs]; simpl; [reflexivity|].
  unfold bind, lift.
  destruct (_clip_mpl gc (v0 :: vs) obj) as [v|e]; [|reflexivity].
  destruct v as [[|v pts]|[|[|q part] parts]]; cbn -[comprehension];
    try reflexivity.
  - destruct (fst v =? 0)%float; reflexivity.
  - unfold bind. rewrite !comprehension_add_lwpolyline. reflexivity.
Qed.

Lemma draw_line2d_frame gc path self g :
  _draw_mpl_line2d gc path (set_groupd self g)
  = (fst (_draw_mpl_line2d gc path self),
     set_groupd (snd (_draw_mpl_line2d gc path self)) g).
Proof.
  unfold _draw_mpl_line2d, bind. rewrite draw_lwpoly_frame.
  destruct (_draw_mpl_lwpoly gc path "line2d" self) as [[poly|e] s1]; reflexivity.
Qed.

(** X7: a path drawn between [open_group "line2d"] and [close_group] is
    drawn as a line, whatever the face colour and the groups around; the
    group stack is restored when the drawing returns and keeps the group
    when it raises. In a group other than "patch" and "line2d" [draw_path]
    draws nothing, and without any open group it raises [IndexError]. *)
Theorem draw_path_inside_group
    (gc : GraphicsContext) (path : Path) (rgbFace : option RGBA)
    (g : string) (self : RendererDxf) :
  bind (open_group "line2d")
       (fun _ => bind (draw_path gc path rgbFace) (fun _ => close_group "line2d"))
       self
  = match _draw_mpl_line2d gc path self with
    | (Ok _, self') => (Ok tt, self')
    | (Raise e, self') => (Raise e, set_groupd self' (_groupd self ++ ["line2d"%string]))
    end
  /\ (if (String.eqb g "patch" || String.eqb g "line2d")%bool then True
      else bind (open_group g)
             (fun _ => bind (draw_path gc path rgbFace) (fun _ => close_group g))
             self
           = (Ok tt, self))
  /\ draw_path gc path rgbFace (set_groupd self [])
     = (Raise IndexError, set_groupd self []).
Proof.
  split; [|split].
  - unfold bind at 1. rewrite open_group_state.
    unfold bind at 1. unfold draw_path at 1. unfold bind at 1.
    rewrite last_group_inside.
    change (String.eqb "line2d" "patch") with false.
    change (String.eqb "line2d" "line2d") with true. cbv beta iota.
    rewrite draw_line2d_frame.
    pose proof (only_adds_draw_lwpoly gc path "line2d" self) as Hg.
    unfold _draw_mpl_line2d, bind in *.
    destruct (_draw_mpl_lwpoly gc path "line2d" self) as [[poly|e] s1]; simpl in *.
    + destruct Hg as (_ & _ & _ & Hgroup & _).
      rewrite close_group_inside, <- Hgroup, set_groupd_same. reflexivity.
    + reflexivity.
  - destruct (String.eqb g "patch") eqn:Ep; [exact I|].
    destruct (String.eqb g "line2d") eqn:El; [exact I|]. simpl.
    unfold bind at 1. rewrite open_group_state.
    unfold bind at 1. unfold draw_path at 1. unfold bind at 1.
    rewrite last_group_inside, Ep, El. unfold ret.
    rewrite close_group_inside, set_groupd_same. reflexivity.
  - reflexivity.
Qed.

(** *** Markers *)

Lemma enclosing_group_inside g1 g2 gs self :
  enclosing_group (set_groupd self (gs ++ [g2; g1]))
  = (Ok g2, set_groupd self (gs ++ [g2; g1])).
Proof.
  unfold enclosing_group. simpl.
  change [g2; g1] with ([g2] ++ [g1]). rewrite app_assoc, !rev_unit. reflexivity.
Qed.

Lemma draw_markers_inside gc marker_at path rgbFace gs g1 g2 self :
  draw_markers gc marker_at path rgbFace (set_groupd self (gs ++ [g2; g1]))
  = if (String.eqb g1 "line2d" && str_in "tick" g2)%bool
    then match transformed_vertices path with
         | v :: _ =>
             _draw_mpl_line2d gc (marker_at v) (set_groupd self (gs ++ [g2; g1]))
         | [] => (Raise IndexError, set_groupd self (gs ++ [g2; g1]))
         end
    else (Ok tt, set_groupd self (gs ++ [g2; g1])).
Proof.
  unfold draw_markers. unfold bind at 1.
  change [g2; g1] with ([g2] ++ [g1]).
  rewrite app_assoc, last_group_inside, <- app_assoc.
  unfold bind at 1. simpl app.
  rewrite enclosing_group_inside.
  destruct (String.eqb g1 "line2d" && str_in "tick" g2)%bool; [|reflexivity].
  unfold bind, lift. destruct (transformed_vertices path); reflexivity.
Qed.

(** X8: inside a "line2d" group whose enclosing group has "tick" in its
    name, [draw_markers] draws the marker once, as a line, at the first
    vertex of the path; the other vertices of the path are not read. *)
Theorem draw_markers_marks_first_vertex
    (gc : GraphicsContext) (marker_at : point -> Path) (v : point)
    (vs : list point) (ext : Bbox) (rgbFace : option RGBA)
    (gs : list string) (g2 : string) (self : RendererDxf) :
  _groupd self = gs ++ [g2; "line2d"%string] ->
  str_in "tick" g2 = true ->
  draw_markers gc marker_at (mkPath (v :: vs) ext) rgbFace self
  = _draw_mpl_line2d gc (marker_at v) self.
Proof.
  intros Hg Htick.
  pose proof (draw_markers_inside gc marker_at (mkPath (v :: vs) ext) rgbFace
                gs "line2d" g2 self) as H.
  rewrite <- Hg, set_groupd_same in H.
  rewrite H, Htick. reflexivity.
Qed.

(** X9: [draw_markers] reads the two innermost groups before anything
    else: with fewer than two open groups it raises [IndexError]; with two,
    it draws nothing unless the innermost is "line2d" and the name of the
    enclosing one contains "tick"; and on a path without vertices it raises
    [IndexError] where it would draw. In all these cases the renderer is as
    before. *)
Theorem draw_markers_outside_ticks
    (gc : GraphicsContext) (marker_at : point -> Path) (path : Path)
    (rgbFace : option RGBA) (gs : list string) (g1 g2 : string)
    (self : RendererDxf) :
  draw_markers gc marker_at path rgbFace (set_groupd self [])
    = (Raise IndexError, set_groupd self [])
  /\ draw_markers gc marker_at path rgbFace (set_groupd self [g1])
     = (Raise IndexError, set_groupd self [g1])
  /\ draw_markers gc marker_at path rgbFace (set_groupd self (gs ++ [g2; g1]))
     = if (String.eqb g1 "line2d" && str_in "tick" g2)%bool
       then match transformed_vertices path with
            | v :: _ =>
                _draw_mpl_line2d gc (marker_at v) (set_groupd self (gs ++ [g2; g1]))
            | [] => (Raise IndexError, set_groupd self (gs ++ [g2; g1]))
            end
       else (Ok tt, set_groupd self (gs ++ [g2; g1])).
Proof.
  split; [reflexivity|]. split; [reflexivity|].
  apply draw_markers_inside.
Qed.

(** *** Clipping and what is drawn *)

Lemma strip_nans_app l1 l2 : strip_nans (l1 ++ l2) = strip_nans l1 ++ strip_nans l2.
Proof. unfold strip_nans. apply List.filter_app. Qed.

Lemma strip_nans_no_nan vertices :
  Forall (fun v => has_nan v = false) (strip_nans vertices).
Proof.
  unfold strip_nans. apply List.Forall_forall. intros v Hv.
  apply List.filter_In in Hv. destruct Hv as [_ Hv].
  unfold has_nan. destruct (is_nan (fst v) || is_nan (snd v))%bool;
    [discriminate Hv | reflexivity].
Qed.

(** X10: under a clip rectangle, a vertex with a NaN coordinate does not
    count in a line: the clip of a line is the clip of the line without that
    vertex, so the two sides of a gap are joined, and no vertex with a NaN
    reaches the intersection. *)
Theorem clip_line_ignores_nan_vertices
    (gc : GraphicsContext) (bbox : Bbox) (before after : list point) (v : point) :
  get_clip_rectangle gc = Some bbox ->
  has_nan v = true ->
  _clip_mpl gc (before ++ v :: after) "line2d"
    = _clip_mpl gc (before ++ after) "line2d"
  /\ strip_nans (before ++ v :: after) = strip_nans (before ++ after)
  /\ Forall (fun w => has_nan w = false) (strip_nans (before ++ v :: after)).
Proof.
  intros Hbox Hnan.
  assert (E : strip_nans (before ++ v :: after) = strip_nans (before ++ after)).
  { rewrite !strip_nans_app. f_equal. unfold strip_nans. simpl.
    unfold has_nan in Hnan. rewrite Hnan. reflexivity. }
  split; [|split; [exact E | apply strip_nans_no_nan]].
  unfold _clip_mpl. rewrite Hbox. simpl String.eqb. cbv iota zeta.
  rewrite E. reflexivity.
Qed.

(** X11: without a clip rectangle nothing is clipped or stripped, whatever
    the kind of object: a path that does not start at x = 0 is drawn as one
    open polyline with all its vertices, those with a NaN too. *)
Theorem unclipped_path_is_drawn_as_is
    (gc : GraphicsContext) (v : point) (vs : list point) (ext : Bbox)
    (obj : string) (self : RendererDxf) :
  get_clip_rectangle gc = None ->
  starts_at_zero (v :: vs) = false ->
  let pol := mkLWPolyline (length (modelspace self)) (v :: vs) false
               (rgb_to_dxf (Some (get_rgb gc))) in
  _clip_mpl gc (v :: vs) obj = Ok (Flat (v :: vs))
  /\ _draw_mpl_lwpoly gc (mkPath (v :: vs) ext) obj self
     = (Ok (POne pol),
        set_modelspace self (modelspace self ++ [ELWPolyline pol])).
Proof.
  intros Hbox Hzero pol.
  assert (Hclip : _clip_mpl gc (v :: vs) obj = Ok (Flat (v :: vs))).
  { unfold _clip_mpl. rewrite Hbox. reflexivity. }
  split; [exact Hclip|].
  unfold _draw_mpl_lwpoly. cbn [transformed_vertices].
  change (Nat.ltb 0 (length (v :: vs))) with true. cbv beta iota zeta.
  unfold bind at 1. unfold lift. rewrite Hclip. simpl in Hzero.
  cbn -[comprehension]. rewrite Hzero. reflexivity.
Qed.



(** *** The text that is stored *)









Lemma re_sub_cons m skip c t :
  re_sub m skip (c :: t)
  = match skip with
    | S k => re_sub m k t
    | O => match m (c :: t) with
           | Some (n, repl) => repl ++ re_sub m n t
           | None => c :: re_sub m 0 t
           end
    end.
Proof. reflexivity. Qed.










Lemma plain_chars c :
  plain c = true ->
  c <> 36%N /\ c <> 125%N /\ c <> 10%N /\ c <> 92%N /\ c <> 8722%N.
Proof.
  unfold plain. intros H. apply negb_true_iff in H.
  repeat (apply orb_false_iff in H; destruct H as [H ?]).
  repeat split; apply N.eqb_neq; assumption.
Qed.





Lemma re_sub_mathbf_plain body :
  Forall (fun c => plain c = true) body ->
  re_sub match_mathbf 0 body = body.
Proof.
  induction 1 as [|c body Hc _ IH]; [reflexivity|].
  apply plain_chars in Hc. destruct Hc as (_ & _ & _ & H92 & _).
  rewrite re_sub_cons.
  assert (E : match_mathbf (c :: body) = None).
  { unfold match_mathbf.
    change (pystr_of "\mathbf{") with (92%N :: pystr_of "mathbf{").
    cbn [strip_prefix].
    destruct (N.eqb_spec 92 c); [congruence | reflexivity]. }
  rewrite E, IH. reflexivity.
Qed.



(** *** The alignment that is placed *)

Lemma map_align_values (align : string) (vert : bool) (r : string) :
  _map_align align vert = Ok r ->
  In r ["RIGHT"; "CENTER"; "LEFT"; "TOP"; "BOTTOM"; "MIDDLE"; ""]%string.
Proof.
  destruct (map_align_cases align vert) as [[Hin _]|[_ Hraise]];
    [|rewrite Hraise; discriminate].
  unfold vocabulary in Hin. simpl in Hin.
  repeat (destruct Hin as [<- | Hin];
          [destruct vert; intros E; injection E as <-; simpl; tauto |]).
  destruct Hin.
Qed.

Lemma resolve_alignment_values angle mtext halign valign :
  resolve_alignment angle mtext = Ok (halign, valign) ->
  In halign ["RIGHT"; "CENTER"; "LEFT"; "TOP"; "BOTTOM"; "MIDDLE"; ""]%string
  /\ In valign ["RIGHT"; "CENTER"; "LEFT"; "TOP"; "BOTTOM"; "MIDDLE"; ""]%string.
Proof.
  unfold resolve_alignment.
  destruct (_map_align (get_va mtext) true) as [v|] eqn:Ev;
    destruct (_map_align (get_ha mtext) false) as [h|] eqn:Eh;
    destruct (angle =? 90)%float; destruct (rotation_mode_is_anchor mtext);
    unfold obind; intros E; try discriminate E; injection E as <- <-;
    (split; [first [eapply map_align_values; eassumption | simpl; tauto]
            | eapply map_align_values; eassumption]).
Qed.

(** X15: the alignment given to [set_placement] has the horizontal and the
    vertical keyword that lines 408-416 resolved when the horizontal one is
    LEFT, CENTER or RIGHT and the vertical one TOP, MIDDLE, BOTTOM or empty
    (the baseline); for every other pair of keywords of the vocabulary, a
    vertical keyword given as horizontal alignment or the reverse, it is
    BOTTOM_LEFT. *)
Theorem text_alignment_parts
    (angle : float) (mtext : MText) (halign valign : string) :
  resolve_alignment angle mtext = Ok (halign, valign) ->
  let placed :=
    dict_get alignment_map (compose_alignment halign valign) BOTTOM_LEFT in
  if (keyword_in halign ["LEFT"; "CENTER"; "RIGHT"]%string
      && keyword_in valign ["TOP"; "MIDDLE"; "BOTTOM"; ""]%string)%bool
  then horizontal_part placed = halign /\ vertical_part placed = valign
  else placed = BOTTOM_LEFT.
Proof.
  intros Hres placed. subst placed.
  destruct (resolve_alignment_values angle mtext halign valign Hres) as [Hh Hv].
  simpl in Hh, Hv.
  repeat (destruct Hh as [<- | Hh]);
    try (destruct Hh);
    repeat (destruct Hv as [<- | Hv]);
    try (destruct Hv);
    vm_compute; try split; reflexivity.
Qed.

(** *** Fill hatches and their polylines *)

Lemma lookup_map {A B} (f : A -> B) (l : list A) (i : nat) :
  List.map f l !! i = option_map f (l !! i).
Proof.
  revert i. induction l as [|a l IH]; intros [|i]; simpl; auto.
Qed.

Lemma polylines_at_handle h color parts i pol :
  polylines_at h color parts !! i = Some pol -> lw_handle pol = (h + i)%nat.
Proof.
  revert h i. induction parts as [|p parts IH]; intros h [|i] E; simpl in E;
    try discriminate E.
  - injection E as <-. simpl. lia.
  - rewrite (IH _ _ E). lia.
Qed.

Lemma draw_lwpoly_shape gc path obj self poly self1 :
  _draw_mpl_lwpoly gc path obj self = (Ok poly, self1) ->
  exists parts,
    polylines_of poly
    = polylines_at (length (modelspace self)) (rgb_to_dxf (Some (get_rgb gc))) parts.
Proof.
  unfold _draw_mpl_lwpoly.
  destruct (transformed_vertices path) as [|v0 vs]; simpl.
  { unfold ret. intros H. injection H as <- <-. exists []. reflexivity. }
  unfold bind, lift.
  destruct (_clip_mpl gc (v0 :: vs) obj) as [v|e]; [|discriminate].
  destruct v as [[|v pts]|[|[|q part] parts]];
    cbn -[comprehension polylines_at rgb_to_dxf];
    unfold ret, raise; try discriminate.
  - intros H. injection H as <- <-. exists []. reflexivity.
  - destruct (fst v =? 0)%float; cbn -[polylines_at rgb_to_dxf].
    + intros H. injection H as <- <-. exists []. reflexivity.
    + unfold bind, add_lwpolyline, ret. intros H. injection H as <- <-.
      exists [v :: pts]. reflexivity.
  - intros H. injection H as <- <-. exists []. reflexivity.
  - unfold bind. rewrite comprehension_add_lwpolyline.
    unfold ret. intros H. injection H as <- <-.
    exists ((q :: part) :: parts). reflexivity.
Qed.

Lemma draw_lwpoly_handles gc path obj self poly self1 i pol :
  _draw_mpl_lwpoly gc path obj self = (Ok poly, self1) ->
  polylines_of poly !! i = Some pol ->
  lw_handle pol = (length (modelspace self) + i)%nat.
Proof.
  intros Hdraw Hi. destruct (draw_lwpoly_shape _ _ _ _ _ _ Hdraw) as [parts E].
  rewrite E in Hi. exact (polylines_at_handle _ _ _ _ _ Hi).
Qed.

(** X16: after a patch call with a fill colour and no hatch pattern, the
    hatch of the i-th polyline is the i-th entity after the polylines, the
    handle that its boundary path is associated with is the place of that
    polyline in the drawing, and the boundary's vertices without their bulge
    are the polyline's points. *)
Theorem fill_hatch_refers_to_its_polyline
    (gc : GraphicsContext) (path : Path) (face : RGBA)
    (self self1 : RendererDxf) (poly : poly_result) (i : nat) (pol : LWPolyline) :
  get_hatch gc = None ->
  _draw_mpl_lwpoly gc path "patch" self = (Ok poly, self1) ->
  polylines_of poly !! i = Some pol ->
  let drawing := modelspace (snd (_draw_mpl_patch gc path (Some face) self)) in
  let hatch := fill_hatch_entity (rgb_to_dxf (Some face)) pol in
  drawing !! (length (modelspace self) + length (polylines_of poly) + i)%nat
    = Some hatch
  /\ hatch = EHatch (mkHatch (rgb_to_dxf (Some face))
                       [mkPolylinePath (get_points_xyb pol) (closed pol)
                          [lw_handle pol]])
  /\ drawing !! lw_handle pol = Some (ELWPolyline pol)
  /\ List.map (fun p => (fst (fst p), snd (fst p))) (get_points_xyb pol)
     = lw_points pol.
Proof.
  intros Hhatch Hdraw Hi drawing hatch.
  assert (Ht : truthy poly = true).
  { destruct (truthy poly) eqn:Ht; [reflexivity|].
    destruct (draw_lwpoly_emitted _ _ _ _ _ _ Hdraw) as [_ Hnone].
    rewrite (Hnone Ht) in Hi. discriminate Hi. }
  assert (Hd : drawing
               = modelspace self ++ List.map ELWPolyline (polylines_of poly)
                 ++ List.map (fill_hatch_entity (rgb_to_dxf (Some face)))
                      (polylines_of poly)).
  { unfold drawing.
    rewrite (draw_patch_without_hatch_pattern gc path face self self1 poly
               Hhatch Hdraw Ht). reflexivity. }
  pose proof (lookup_lt_Some _ _ _ Hi) as Hlt.
  split; [|split; [reflexivity|split]].
  - rewrite Hd.
    rewrite lookup_app_r by lia.
    rewrite lookup_app_r by (rewrite length_map; lia).
    rewrite length_map.
    replace (length (modelspace self) + length (polylines_of poly) + i
             - length (modelspace self) - length (polylines_of poly))%nat
      with i by lia.
    rewrite lookup_map, Hi. reflexivity.
  - rewrite (draw_lwpoly_handles _ _ _ _ _ _ _ _ Hdraw Hi), Hd.
    rewrite lookup_app_r by lia.
    rewrite lookup_app_l by (rewrite length_map; lia).
    replace (length (modelspace self) + i - length (modelspace self))%nat
      with i by lia.
    rewrite lookup_map, Hi. reflexivity.
  - unfold get_points_xyb. rewrite List.map_map. simpl.
    induction (lw_points pol) as [|[px py] l IH]; simpl; [reflexivity|].
    rewrite IH. reflexivity.
Qed.

(** *** Tiles of a hatch pattern *)

Lemma math_ceil_positive (x : float) (r : Z) :
  (0 <? x)%float = true -> math_ceil x = Ok r -> 1 <= r.
Proof.
  rewrite ltb_spec. unfold math_ceil.
  change (Prim2SF 0) with (S754_zero false).
  destruct (Prim2SF x) as [s|s| |s m e]; simpl; try discriminate.
  destruct s; [discriminate|]. intros _ E. injection E as <-.
  destruct e as [|p|p].
  - lia.
  - pose proof (Z.pow_pos_nonneg 2 (Z.pos p)). nia.
  - assert (H2 : 0 < 2 ^ Z.pos p) by (apply Z.pow_pos_nonneg; lia).
    assert (Hq : (- Z.pos m) / 2 ^ Z.pos p < 0).
    { apply Z.div_lt_upper_bound; lia. }
    lia.
Qed.

Lemma math_ceil_zero (x : float) (r : Z) :
  (x =? 0)%float = true -> math_ceil x = Ok r -> r = 0.
Proof.
  rewrite FloatAxioms.eqb_spec. unfold math_ceil.
  change (Prim2SF 0) with (S754_zero false).
  destruct (Prim2SF x) as [s|s| |s m e]; simpl; try discriminate.
  - intros _ E. injection E as <-. reflexivity.
  - destruct s; discriminate.
Qed.

Lemma tile_counts_parts ext dpi rows cols :
  tile_counts ext dpi = Ok (rows, cols) ->
  math_ceil ((y1 ext - y0 ext) / dpi)%float = Ok (rows + 1)
  /\ math_ceil ((x1 ext - x0 ext) / dpi)%float = Ok (cols + 1).
Proof.
  unfold tile_counts.
  destruct (math_ceil ((y1 ext - y0 ext) / dpi)) as [r|]; [|discriminate].
  destruct (math_ceil ((x1 ext - x0 ext) / dpi)) as [c|]; [|discriminate].
  simpl. intros E. injection E as <- <-. split; f_equal; lia.
Qed.

(** X17: when the height and the width of the extents divided by the
    resolution are positive floats, rows and cols are not negative, the
    tile at the centre, offset (0, 0), is among the offsets, the offsets
    are symmetric about it, and their number is (2 rows + 1)(2 cols + 1). *)
Theorem hatch_grid_has_centre_tile
    (ext : Bbox) (dpi : float) (rows cols : Z) :
  tile_counts ext dpi = Ok (rows, cols) ->
  (0 <? (y1 ext - y0 ext) / dpi)%float = true ->
  (0 <? (x1 ext - x0 ext) / dpi)%float = true ->
  0 <= rows /\ 0 <= cols
  /\ In (0, 0) (tile_offsets rows cols)
  /\ (forall irow icol,
        In (irow, icol) (tile_offsets rows cols) ->
        In (- irow, - icol) (tile_offsets rows cols))
  /\ Z.of_nat (length (tile_offsets rows cols)) = (2 * rows + 1) * (2 * cols + 1).
Proof.
  intros Hcounts Hy Hx.
  destruct (tile_counts_parts ext dpi rows cols Hcounts) as [Er Ec].
  pose proof (math_ceil_positive _ _ Hy Er) as Hr.
  pose proof (math_ceil_positive _ _ Hx Ec) as Hc.
  split; [lia|]. split; [lia|]. split; [|split].
  - apply in_tile_offsets. lia.
  - intros irow icol Hin. apply in_tile_offsets in Hin. apply in_tile_offsets. lia.
  - rewrite length_tile_offsets. lia.
Qed.

(** X18: when the height or the width of the extents divided by the
    resolution is zero, as for a patch without height, a context with a
    hatch pattern gets no tile: rows or cols is -1 and the hatch step
    returns with the renderer as it was. *)
Theorem hatch_of_flat_extents_is_empty
    (gc : GraphicsContext) (path : Path) (pline : poly_result)
    (self : RendererDxf) (rows cols : Z) :
  tile_counts (get_extents path) (dpi self) = Ok (rows, cols) ->
  ((y1 (get_extents path) - y0 (get_extents path)) / dpi self =? 0)%float = true
  \/ ((x1 (get_extents path) - x0 (get_extents path)) / dpi self =? 0)%float = true ->
  (rows = -1 \/ cols = -1)
  /\ tile_offsets rows cols = []
  /\ _draw_mpl_hatch gc path pline self = (Ok tt, self).
Proof.
  intros Hcounts Hzero.
  destruct (tile_counts_parts _ _ rows cols Hcounts) as [Er Ec].
  assert (Hneg : rows = -1 \/ cols = -1).
  { destruct Hzero as [H|H].
    - left. pose proof (math_ceil_zero _ _ H Er). lia.
    - right. pose proof (math_ceil_zero _ _ H Ec). lia. }
  assert (Hnil : tile_offsets rows cols = []).
  { apply length_zero_iff_nil. rewrite length_tile_offsets.
    destruct Hneg as [-> | ->]; simpl; lia. }
  split; [exact Hneg|]. split; [exact Hnil|].
  unfold _draw_mpl_hatch. destruct (get_hatch gc); [|reflexivity].
  unfold bind, lift. rewrite Hcounts. cbv beta iota. simpl fst. simpl snd.
  rewrite (nested_loops_are_tile_offsets rows cols
             (fun irow icol =>
                hatch_tile gc path (rgb_to_dxf (Some (get_hatch_color gc)))
                  pline irow icol)).
  rewrite Hnil. reflexivity.
Qed.

(** *** Collections of paths *)

Lemma only_adds_open_polylines gc path obj :
  only_adds (open_polyline (rgb_to_dxf (Some (get_rgb gc))))
            (_draw_mpl_lwpoly gc path obj).
Proof.
  intros self.
  destruct (draw_lwpoly_state gc path obj self) as [H | (poly & new & H & _ & HP)].
  - rewrite H. apply grows_by_refl.
  - rewrite H. simpl. apply grows_by_append. exact HP.
Qed.

Lemma only_adds_patch_without_pattern gc path rgbFace fill :
  get_hatch gc = None ->
  match rgbFace with
  | Some face => fill = rgb_to_dxf (Some face)
  | None => True
  end ->
  only_adds (outline_or_fill (rgb_to_dxf (Some (get_rgb gc))) fill)
            (_draw_mpl_patch gc path rgbFace).
Proof.
  intros Hhatch Hfill. unfold _draw_mpl_patch.
  apply only_adds_bind.
  { eapply only_adds_weaken; [|apply only_adds_open_polylines].
    intros e He. left. exact He. }
  intros poly. destruct (truthy poly) eqn:Ht; [|apply only_adds_ret].
  cbv beta iota delta [negb].
  apply only_adds_bind.
  - intros self. destruct rgbFace as [face|]; [|apply grows_by_refl].
    rewrite (fill_patch_appends face poly self Ht). apply grows_by_append.
    subst fill. apply List.Forall_forall. intros e He.
    apply in_map_iff in He. destruct He as (pol & <- & _).
    right. exists pol. reflexivity.
  - intros _ self. unfold _draw_mpl_hatch. rewrite Hhatch. apply grows_by_refl.
Qed.

(** X19: for a context without hatch pattern, [draw_path_collection] adds
    nothing but open polylines with the index of the stroke colour and,
    when face colours are given, fill hatches with the index of the first
    face colour, whatever the other face colours are; it keeps the canvas
    size, the resolution, the group stack and the entities of the drawing. *)
Theorem draw_path_collection_fills_with_first_colour
    (gc : GraphicsContext) (paths : list Path) (face : RGBA)
    (others : list RGBA) (self : RendererDxf) :
  get_hatch gc = None ->
  grows_by (outline_or_fill (rgb_to_dxf (Some (get_rgb gc)))
                            (rgb_to_dxf (Some face)))
           self
           (snd (draw_path_collection gc paths (face :: others) self))
  /\ grows_by (open_polyline (rgb_to_dxf (Some (get_rgb gc))))
              self
              (snd (draw_path_collection gc paths [] self))
  /\ draw_path_collection gc paths (face :: others) self
     = draw_path_collection gc paths [face] self.
Proof.
  intros Hhatch. split; [|split].
  - apply (only_adds_for (outline_or_fill _ _)). intros p.
    apply only_adds_patch_without_pattern; [exact Hhatch | reflexivity].
  - apply (only_adds_for (open_polyline _)). intros p self0.
    pose proof (only_adds_patch_without_pattern gc p None 0 Hhatch I self0) as H.
    destruct H as (Hw & Hh & Hd & Hg & new & Hnew & HP).
    repeat split; try assumption. exists new. split; [exact Hnew|].
    assert (Hshape : snd (_draw_mpl_patch gc p None self0)
                     = snd (_draw_mpl_lwpoly gc p "patch" self0)).
    { unfold _draw_mpl_patch, bind.
      destruct (_draw_mpl_lwpoly gc p "patch" self0) as [[poly|e] s1];
        [|reflexivity].
      destruct (negb (truthy poly)); [reflexivity|].
      simpl. unfold _draw_mpl_hatch. rewrite Hhatch. reflexivity. }
    pose proof (only_adds_open_polylines gc p "patch" self0)
      as (_ & _ & _ & _ & new' & Hnew' & HP').
    rewrite Hshape in Hnew. rewrite Hnew' in Hnew.
    apply app_inv_head in Hnew. subst new'. exact HP'.
  - reflexivity.
Qed.

End Renderer.

(** ** The scenarios

    The renderer with the sample collaborators. *)

Local Abbreviation s_rgb_to_dxf :=
  (rgb_to_dxf SamplePalette.WHITE SamplePalette.nearest_index).
Local Abbreviation s_clip_mpl :=
  (_clip_mpl Sample.intersection Sample.clip_polyline).
Local Abbreviation s_draw_mpl_lwpoly :=
  (_draw_mpl_lwpoly SamplePalette.WHITE SamplePalette.nearest_index
     Sample.intersection Sample.clip_polyline).
Local Abbreviation s_draw_mpl_patch :=
  (_draw_mpl_patch SamplePalette.WHITE SamplePalette.nearest_index
     Sample.intersection Sample.clip_polyline Sample.hatch_tile).
Local Abbreviation s_draw_mpl_hatch :=
  (_draw_mpl_hatch SamplePalette.WHITE SamplePalette.nearest_index
     Sample.hatch_tile).
Local Abbreviation s_draw_text :=
  (draw_text SamplePalette.WHITE SamplePalette.nearest_index).

(** Black, and None, on the sample palette: index 7, white. *)
Lemma rgb_to_dxf_black_is_white_witness :
  allclose (rgb3 Sample.black) (zeros 3) = true
  /\ s_rgb_to_dxf (Some Sample.black) = 7
  /\ s_rgb_to_dxf (Some (mkRGBA 1 1 1 None)) = 7
  /\ s_rgb_to_dxf None = 7.
Proof.
  split; [reflexivity|].
  destruct (rgb_to_dxf_black_is_white SamplePalette.WHITE
              SamplePalette.nearest_index Sample.black None None eq_refl)
    as (Hnear & Hwhite & _ & Hnone).
  split; [exact Hnear|].
  split; [rewrite <- Hwhite; exact Hnear | exact Hnone].
Defined.

(** A line clipped by a window on which the intersection raises. *)
Lemma clip_line_failure_is_empty_witness :
  let path := mkPath Sample.crossing_line Sample.window in
  _clip_mpl Sample.failing_intersection Sample.clip_polyline Sample.gc_window
    (transformed_vertices path) "line2d" = Ok (Flat [])
  /\ _draw_mpl_lwpoly SamplePalette.WHITE SamplePalette.nearest_index
       Sample.failing_intersection Sample.clip_polyline Sample.gc_window path
       "line2d" Sample.renderer = (Ok PNone, Sample.renderer)
  /\ _draw_mpl_line2d SamplePalette.WHITE SamplePalette.nearest_index
       Sample.failing_intersection Sample.clip_polyline Sample.gc_window path
       Sample.renderer = (Ok tt, Sample.renderer).
Proof.
  intros path.
  apply (clip_line_failure_is_empty SamplePalette.WHITE SamplePalette.nearest_index
           Sample.failing_intersection Sample.clip_polyline
           Sample.gc_window Sample.window path Sample.renderer);
    reflexivity.
Defined.

(** The line that crosses the window twice: two contours, two polylines. *)
Lemma clip_line_keeps_every_piece_witness :
  let path := mkPath Sample.crossing_line Sample.window in
  let contours := [ [ (2, 5); (2, 10) ]; [ (8, 10); (8, 5) ] ]%float in
  let polys := polylines_at 0 7 contours in
  s_clip_mpl Sample.gc_window (transformed_vertices path) "line2d"
    = Ok (Nested contours)
  /\ length contours = 2%nat
  /\ s_draw_mpl_lwpoly Sample.gc_window path "line2d" Sample.renderer
     = (Ok (PList polys),
        set_modelspace Sample.renderer (List.map ELWPolyline polys))
  /\ length polys = 2%nat
  /\ List.map lw_points polys = contours.
Proof.
  intros path contours polys.
  apply (clip_line_keeps_every_piece SamplePalette.WHITE SamplePalette.nearest_index
           Sample.intersection Sample.clip_polyline
           Sample.gc_window Sample.window path KMultiLineString
           [ LineString [ (2, 5); (2, 10) ]%float;
             LineString [ (8, 10); (8, 5) ]%float ] Sample.renderer);
    first [reflexivity | discriminate].
Defined.

(** C2, the claim as stated fails: a line from (0,0) to (1,1), drawn without
    a clip rectangle, has the non-empty clip result of its two vertices, and
    no polyline is emitted for it. *)
Lemma line_from_origin_is_not_emitted :
  let path := mkPath [ (0, 0); (1, 1) ]%float (mkBbox 0 0 1 1) in
  s_clip_mpl Sample.gc_unclipped (transformed_vertices path) "line2d"
    = Ok (Flat [ (0, 0); (1, 1) ]%float)
  /\ modelspace
       (snd (s_draw_mpl_lwpoly Sample.gc_unclipped path "line2d" Sample.renderer))
     = []
  /\ ~ (exists pol,
          In (ELWPolyline pol)
             (modelspace
                (snd (s_draw_mpl_lwpoly Sample.gc_unclipped path "line2d"
                        Sample.renderer)))).
Proof.
  intros path. split; [reflexivity|]. split; [reflexivity|].
  intros [pol Hin]. exact Hin.
Qed.

(** The square patch inside its clip window: one contour, one open polyline
    with the stroke colour. *)
Lemma draw_lwpoly_one_polyline_per_contour_witness :
  let parts := [ transformed_vertices Sample.square ] in
  s_draw_mpl_lwpoly Sample.gc_big_window Sample.square "patch" Sample.renderer
  = (Ok (PList (polylines_at 0 7 parts)),
     set_modelspace Sample.renderer
       (List.map ELWPolyline (polylines_at 0 7 parts)))
  /\ List.map lw_points (polylines_at 0 7 parts) = parts
  /\ Forall (fun pol => closed pol = false /\ lw_color pol = 7)
            (polylines_at 0 7 parts).
Proof.
  intros parts.
  apply (draw_lwpoly_one_polyline_per_contour SamplePalette.WHITE
           SamplePalette.nearest_index Sample.intersection Sample.clip_polyline
           Sample.gc_big_window Sample.square "patch" Sample.renderer
           (Nested parts));
    first [reflexivity | discriminate].
Defined.

(** The square patch (0,0)-(10,10) with the fill colour (1,0,0) in the
    window (0,0)-(20,20): one polyline and one hatch of colour 1 on it. *)
Lemma patch_fill_one_hatch_per_polyline_witness :
  let pol := mkLWPolyline 0 (transformed_vertices Sample.square) false 7 in
  let self1 := set_modelspace Sample.renderer [ELWPolyline pol] in
  let filled :=
    set_modelspace Sample.renderer [ELWPolyline pol; fill_hatch_entity 1 pol] in
  s_draw_mpl_lwpoly Sample.gc_big_window Sample.square "patch" Sample.renderer
    = (Ok (PList [pol]), self1)
  /\ fill_patch SamplePalette.WHITE SamplePalette.nearest_index
       (Some Sample.red_face) (PList [pol]) self1 = (Ok tt, filled)
  /\ s_draw_mpl_patch Sample.gc_big_window Sample.square (Some Sample.red_face)
       Sample.renderer
     = s_draw_mpl_hatch Sample.gc_big_window Sample.square (PList [pol]) filled.
Proof.
  intros pol self1 filled.
  split; [reflexivity|].
  destruct (patch_fill_one_hatch_per_polyline SamplePalette.WHITE
              SamplePalette.nearest_index Sample.intersection Sample.clip_polyline
              Sample.hatch_tile Sample.gc_big_window Sample.square Sample.red_face
              Sample.renderer self1 (PList [pol]) eq_refl)
    as (_ & Hfill & _ & Hpatch).
  split; [exact Hfill | exact Hpatch].
Defined.

(** C4, the claim as stated fails: for extents of height 0 (300 wide, at 100
    dots per inch) rows is -1 and cols is 2, no offset is visited, and
    (2 rows + 1)(2 cols + 1) is -5. *)
Lemma hatch_grid_of_flat_box_is_empty :
  tile_counts (mkBbox 0 0 300 0) 100 = Ok (-1, 2)
  /\ tile_offsets (-1) 2 = []
  /\ ~ (forall ext dpi rows cols,
          tile_counts ext dpi = Ok (rows, cols) ->
          Z.of_nat (length (tile_offsets rows cols))
          = (2 * rows + 1) * (2 * cols + 1)).
Proof.
  split; [reflexivity|]. split; [reflexivity|].
  intros H. specialize (H (mkBbox 0 0 300 0) 100%float (-1) 2 eq_refl).
  discriminate H.
Qed.

(** Extents of 300 x 150 at 100 dots per inch: rows = 1, cols = 2 and the
    15 offsets of a 3 x 5 grid, each visited once. *)
Lemma hatch_tiles_cover_offset_grid_witness :
  let path := mkPath [] (mkBbox 0 0 300 150) in
  tile_counts (get_extents path) (dpi Sample.renderer) = Ok (1, 2)
  /\ tile_offsets 1 2
     = [ (-1, -2); (-1, -1); (-1, 0); (-1, 1); (-1, 2);
         (0, -2); (0, -1); (0, 0); (0, 1); (0, 2);
         (1, -2); (1, -1); (1, 0); (1, 1); (1, 2) ]
  /\ Z.of_nat (length (tile_offsets 1 2)) = 3 * 5
  /\ length (modelspace
               (snd (s_draw_mpl_hatch Sample.gc_hatched path PNone Sample.renderer)))
     = 15%nat.
Proof.
  intros path.
  destruct (hatch_tiles_cover_offset_grid SamplePalette.WHITE
              SamplePalette.nearest_index Sample.hatch_tile Sample.gc_hatched
              path PNone Sample.renderer "/" 1 2 eq_refl eq_refl)
    as (_ & Hloop & _ & Hcount & _).
  split; [reflexivity|]. split; [reflexivity|].
  split; [apply Hcount; lia|].
  rewrite Hloop. reflexivity.
Defined.

(** C8, the claim as stated fails: at 90 degrees with the rotation mode
    "anchor" the host's "left" is kept, and the text is placed TOP_LEFT; with
    another rotation mode it is replaced by "RIGHT". *)
Lemma anchor_mode_keeps_host_alignment :
  resolve_alignment 90 Sample.mtext_anchor_left = Ok ("LEFT", "TOP")%string
  /\ resolve_alignment 90 Sample.mtext_default_left = Ok ("RIGHT", "TOP")%string
  /\ List.map (fun e => match e with
                        | EText t => option_map snd (placement t)
                        | _ => None
                        end)
       (modelspace
          (snd (s_draw_text Sample.gc_unclipped 0 0 (pystr_of "label") Sample.font
                  90 false (Some Sample.mtext_anchor_left) Sample.renderer)))
     = [Some TOP_LEFT]
  /\ ~ (forall angle mtext,
          (angle =? 90)%float = true ->
          rotation_mode_is_anchor mtext = true ->
          exists valign, resolve_alignment angle mtext = Ok ("RIGHT"%string, valign)).
Proof.
  split; [reflexivity|]. split; [reflexivity|]. split; [reflexivity|].
  intros H.
  destruct (H 90%float Sample.mtext_anchor_left eq_refl eq_refl) as [valign Hv].
  discriminate Hv.
Qed.

(** C9, the code at a string with a non-ASCII character: "é-1" written with
    U+00E9 and the minus sign U+2212 is stored with the minus sign replaced
    and U+00E9 kept, so the stored string is not ASCII. *)
Lemma draw_text_stores_non_ascii :
  let s := [233; 8722; 49]%N in
  List.map (fun e => match e with
                     | EText t => Some (text t)
                     | _ => None
                     end)
    (modelspace
       (snd (s_draw_text Sample.gc_unclipped 0 0 s Sample.font 0 false
               (Some Sample.mtext_default_left) Sample.renderer)))
  = [Some [233; 45; 49]%N]
  /\ encode_ascii_ignore (replace_minus s) = [45; 49]%N
  /\ ~ is_ascii [233; 45; 49]%N.
Proof.
  intros s. split; [reflexivity|]. split; [reflexivity|].
  intros H. inversion H as [|c l Hc _]. discriminate Hc.
Qed.

(** ** More scenarios *)

Local Abbreviation s_draw_path :=
  (draw_path SamplePalette.WHITE SamplePalette.nearest_index
     Sample.intersection Sample.clip_polyline Sample.hatch_tile).
Local Abbreviation s_draw_path_collection :=
  (draw_path_collection SamplePalette.WHITE SamplePalette.nearest_index
     Sample.intersection Sample.clip_polyline Sample.hatch_tile).
Local Abbreviation s_draw_markers :=
  (draw_markers SamplePalette.WHITE SamplePalette.nearest_index
     Sample.intersection Sample.clip_polyline).
Local Abbreviation s_draw_mpl_line2d :=
  (_draw_mpl_line2d SamplePalette.WHITE SamplePalette.nearest_index
     Sample.intersection Sample.clip_polyline).

(** The sample tile adds one polyline, so the three draw calls only add. *)
Lemma draw_calls_only_add_witness :
  grows_by any_entity Scene.in_patch
    (snd (s_draw_path Sample.gc_hatched Scene.bar (Some Sample.red_face)
            Scene.in_patch))
  /\ grows_by any_entity Scene.in_patch
       (snd (s_draw_path_collection Sample.gc_hatched [Scene.bar; Sample.square]
               [Sample.red_face] Scene.in_patch))
  /\ grows_by any_entity Scene.in_patch
       (snd (s_draw_markers Sample.gc_hatched Scene.tick_at Scene.axis None
               Scene.in_patch)).
Proof.
  assert (Htile : forall gc path color pline irow icol,
             only_adds any_entity (Sample.hatch_tile gc path color pline irow icol)).
  { intros gc path color pline irow icol self.
    unfold Sample.hatch_tile, bind, add_lwpolyline, ret. simpl.
    apply grows_by_append. constructor; [exact I | constructor]. }
  exact (draw_calls_only_add SamplePalette.WHITE SamplePalette.nearest_index
           Sample.intersection Sample.clip_polyline Sample.hatch_tile Htile
           Sample.gc_hatched Scene.bar (Some Sample.red_face)
           [Scene.bar; Sample.square] [Sample.red_face] Scene.tick_at
           Scene.in_patch).
Defined.


(** A tick mark for an axis of three vertices: one mark, at the first. *)
Lemma draw_markers_marks_first_vertex_witness :
  s_draw_markers Sample.gc_unclipped Scene.tick_at Scene.axis None Scene.in_tick
  = s_draw_mpl_line2d Sample.gc_unclipped (Scene.tick_at (20, 40)%float)
      Scene.in_tick
  /\ length (modelspace
               (snd (s_draw_markers Sample.gc_unclipped Scene.tick_at Scene.axis
                       None Scene.in_tick))) = 1%nat.
Proof.
  split; [|reflexivity].
  exact (draw_markers_marks_first_vertex SamplePalette.WHITE
           SamplePalette.nearest_index Sample.intersection Sample.clip_polyline
           Sample.gc_unclipped Scene.tick_at (20, 40)%float
           [ (60, 40); (100, 40) ]%float (mkBbox 20 40 100 40) None
           ["axes"%string] "xtick_1" Scene.in_tick eq_refl eq_refl).
Defined.

(** The crossing line with a NaN vertex put in is clipped as without it. *)
Lemma clip_line_ignores_nan_vertices_witness :
  has_nan Scene.gap = true
  /\ s_clip_mpl Sample.gc_window
       ([ (2, 5); (2, 15) ]%float ++ Scene.gap :: [ (8, 15); (8, 5) ]%float)
       "line2d"
     = s_clip_mpl Sample.gc_window Sample.crossing_line "line2d".
Proof.
  split; [reflexivity|].
  exact (proj1 (clip_line_ignores_nan_vertices Sample.intersection
                  Sample.clip_polyline Sample.gc_window Sample.window
                  [ (2, 5); (2, 15) ]%float [ (8, 15); (8, 5) ]%float Scene.gap
                  eq_refl eq_refl)).
Defined.

(** Without clip rectangle the line with the gap is drawn with its NaN. *)
Lemma unclipped_path_is_drawn_as_is_witness :
  let vs := [ (2, 5); Scene.gap; (8, 5) ]%float in
  s_draw_mpl_lwpoly Sample.gc_unclipped (mkPath vs Sample.window) "line2d"
    Sample.renderer
  = (Ok (POne (mkLWPolyline 0 vs false 7)),
     set_modelspace Sample.renderer [ELWPolyline (mkLWPolyline 0 vs false 7)]).
Proof.
  intros vs.
  exact (proj2 (unclipped_path_is_drawn_as_is SamplePalette.WHITE
                  SamplePalette.nearest_index Sample.intersection
                  Sample.clip_polyline Sample.gc_unclipped (2, 5)%float
                  [ Scene.gap; (8, 5)%float ] Sample.window "line2d"
                  Sample.renderer eq_refl eq_refl)).
Defined.




(** "center" over "center_baseline" is placed MIDDLE_CENTER. *)
Lemma text_alignment_parts_witness :
  resolve_alignment 0 Scene.mtext_center_baseline = Ok ("CENTER", "MIDDLE")%string
  /\ horizontal_part MIDDLE_CENTER = "CENTER"%string
  /\ vertical_part MIDDLE_CENTER = "MIDDLE"%string.
Proof.
  split; [reflexivity|].
  exact (text_alignment_parts 0 Scene.mtext_center_baseline "CENTER" "MIDDLE"
           eq_refl).
Defined.

(** The square patch: its hatch is entity 1 and refers to entity 0. *)
Lemma fill_hatch_refers_to_its_polyline_witness :
  let pol := mkLWPolyline 0 (transformed_vertices Sample.square) false 7 in
  let drawing :=
    modelspace (snd (s_draw_mpl_patch Sample.gc_big_window Sample.square
                       (Some Sample.red_face) Sample.renderer)) in
  drawing !! 1%nat = Some (fill_hatch_entity 1 pol)
  /\ fill_hatch_entity 1 pol
     = EHatch (mkHatch 1 [mkPolylinePath (get_points_xyb pol) false [0%nat]])
  /\ drawing !! 0%nat = Some (ELWPolyline pol)
  /\ List.map (fun p => (fst (fst p), snd (fst p))) (get_points_xyb pol)
     = transformed_vertices Sample.square.
Proof.
  intros pol drawing.
  exact (fill_hatch_refers_to_its_polyline SamplePalette.WHITE
           SamplePalette.nearest_index Sample.intersection Sample.clip_polyline
           Sample.hatch_tile Sample.gc_big_window Sample.square Sample.red_face
           Sample.renderer
           (set_modelspace Sample.renderer [ELWPolyline pol])
           (PList [pol]) 0%nat pol eq_refl eq_refl eq_refl).
Defined.

(** A bar of 300 x 150 at 100 dots per inch: rows 1, cols 2, 15 offsets. *)
Lemma hatch_grid_has_centre_tile_witness :
  tile_counts (get_extents Scene.bar) 100 = Ok (1, 2)
  /\ In (0, 0) (tile_offsets 1 2)
  /\ Z.of_nat (length (tile_offsets 1 2)) = 15.
Proof.
  split; [reflexivity|].
  destruct (hatch_grid_has_centre_tile (get_extents Scene.bar) 100 1 2
              eq_refl eq_refl eq_refl) as (_ & _ & Hcentre & _ & Hcount).
  split; [exact Hcentre | exact Hcount].
Defined.

(** A bar without height under a hatch pattern: no tile. *)
Lemma hatch_of_flat_extents_is_empty_witness :
  tile_counts (get_extents Scene.flat_bar) (dpi Sample.renderer) = Ok (-1, 2)
  /\ s_draw_mpl_hatch Sample.gc_hatched Scene.flat_bar PNone Sample.renderer
     = (Ok tt, Sample.renderer).
Proof.
  split; [reflexivity|].
  exact (proj2 (proj2 (hatch_of_flat_extents_is_empty SamplePalette.WHITE
                         SamplePalette.nearest_index Sample.hatch_tile
                         Sample.gc_hatched Scene.flat_bar PNone Sample.renderer
                         (-1) 2 eq_refl (or_introl eq_refl)))).
Defined.

(** Two patches and two face colours: both hatches have colour 1, red. *)
Lemma draw_path_collection_fills_with_first_colour_witness :
  grows_by (outline_or_fill 7 1) Sample.renderer
    (snd (s_draw_path_collection Sample.gc_big_window
            [Sample.square; Scene.bar] [Sample.red_face; Sample.black]
            Sample.renderer))
  /\ List.map (fun e => match e with
                        | EHatch h => Some (hatch_color h)
                        | _ => None
                        end)
       (modelspace
          (snd (s_draw_path_collection Sample.gc_big_window
                  [Sample.square; Scene.bar] [Sample.red_face; Sample.black]
                  Sample.renderer)))
     = [None; Some 1; None; Some 1].
Proof.
  split; [|reflexivity].
  exact (proj1 (draw_path_collection_fills_with_first_colour SamplePalette.WHITE
                  SamplePalette.nearest_index Sample.intersection
                  Sample.clip_polyline Sample.hatch_tile Sample.gc_big_window
                  [Sample.square; Scene.bar] Sample.red_face [Sample.black]
                  Sample.renderer eq_refl)).
Defined.
